(** * CShell: the command pipeline of [simple_shell.h]

    A shallow embedding of the single-header shell library: tokenization,
    the redirection scan, the custom / built-in / external dispatch, the
    external executor and the job table, followed by the properties of the
    specification that concern them.

    Conventions of the embedding.
    - A [char *] that the code may hold as [NULL] is an [option string]; a C
      string is the [string] of its characters before the terminating NUL.
    - The [tokens] array of [shell_execute_command] is a [list (option string)]:
      the initialised prefix of the C array, terminator slot included.  A read
      outside that prefix, or a [strcmp] on [NULL], is undefined behaviour and
      is reported as such, never given a value.
    - The fixed arrays [custom_commands] and [jobs] are lists holding the live
      slots [0 .. count-1]; the counters are their lengths.  The code never
      reads a slot at or beyond its counter.
    - The operating system is a set of oracles over an abstract [World];
      every call the shell makes to it is also appended to a trace. *)

From Stdlib Require Import ZArith String Ascii List Bool Lia.
From stdpp Require Import base option list.
Import ListNotations.

Local Open Scope string_scope.
Local Open Scope Z_scope.
Local Open Scope list_scope.

(** ** Constants of the header *)

Definition MAX_INPUT_SIZE : Z := 1024.
Definition MAX_HISTORY_SIZE : Z := 100.
Definition MAX_ENV_VARS : Z := 100.
Definition MAX_CUSTOM_COMMANDS : Z := 50.
Definition MAX_JOBS : Z := 100.
Definition MAX_ALIASES : Z := 50.

Definition STDIN_FILENO : Z := 0.
Definition STDOUT_FILENO : Z := 1.

(** ** Error codes *)

Inductive ShellError : Type :=
| SHELL_OK
| SHELL_ERROR_NULL_POINTER
| SHELL_ERROR_MEMORY_ALLOCATION
| SHELL_ERROR_INVALID_INPUT
| SHELL_ERROR_COMMAND_NOT_FOUND
| SHELL_ERROR_EXECUTION_FAILED
| SHELL_ERROR_SIGNAL_HANDLING_FAILED
| SHELL_ERROR_HISTORY_FULL
| SHELL_ERROR_ENV_VAR_NOT_FOUND
| SHELL_ERROR_ENV_VAR_FULL
| SHELL_ERROR_CUSTOM_COMMAND_FULL
| SHELL_ERROR_JOB_CONTROL_FULL
| SHELL_ERROR_REDIRECTION_FAILED
| SHELL_ERROR_PIPELINE_FAILED
| SHELL_ERROR_ALIAS_FULL
| SHELL_ERROR_TAB_COMPLETION_FAILED.

(** ** The structures of the header *)

Record ShellContext : Type := mkShellContext {
  input : option string;
  output : option string;
  error : option string;
  history : list string;          (* history[0 .. history_count-1] *)
  env_vars : list string;         (* env_vars[0 .. env_vars_count-1] *)
  child_pid : Z;
  signal_mask : list Z;           (* the signals added by sigaddset *)
  last_error : ShellError;
  prompt : option string;         (* strdup may hand back NULL *)
  interactive : bool
}.

Record Job : Type := mkJob {
  pid : Z;
  command : option string;        (* strdup(command), unchecked *)
  running : bool
}.

(** The callback type of the header: a function of the base context pointer,
    [argc] and [argv] returning a [ShellError].  A callback is handed
    [&ctx->base] only; it is represented by its status and its effect on that
    base context. *)
Definition CommandCallback : Type :=
  ShellContext -> Z -> list (option string) -> ShellError * ShellContext.

Record CustomCommand : Type := mkCustomCommand {
  name : string;
  callback : CommandCallback
}.

Record Alias : Type := mkAlias {
  alias_name : string;
  alias_value : string
}.

Record ExtendedShellContext : Type := mkExtendedShellContext {
  base : ShellContext;
  custom_commands : list CustomCommand;
  jobs : list Job;
  aliases : list Alias
}.

Definition custom_command_count (c : ExtendedShellContext) : Z :=
  Z.of_nat (length (custom_commands c)).
Definition job_count (c : ExtendedShellContext) : Z :=
  Z.of_nat (length (jobs c)).
Definition alias_count (c : ExtendedShellContext) : Z :=
  Z.of_nat (length (aliases c)).

Definition set_last_error (e : ShellError) (b : ShellContext) : ShellContext :=
  mkShellContext (input b) (output b) (error b) (history b) (env_vars b)
    (child_pid b) (signal_mask b) e (prompt b) (interactive b).

Definition with_base (b : ShellContext) (c : ExtendedShellContext)
  : ExtendedShellContext :=
  mkExtendedShellContext b (custom_commands c) (jobs c) (aliases c).

Definition with_custom_commands (l : list CustomCommand)
  (c : ExtendedShellContext) : ExtendedShellContext :=
  mkExtendedShellContext (base c) l (jobs c) (aliases c).

Definition with_jobs (l : list Job) (c : ExtendedShellContext)
  : ExtendedShellContext :=
  mkExtendedShellContext (base c) (custom_commands c) l (aliases c).

Definition fail_with (e : ShellError) (c : ExtendedShellContext)
  : ExtendedShellContext :=
  with_base (set_last_error e (base c)) c.

(** ** Tokenizer: the [strtok (command, " ")] loop

    [strtok] skips every run of the delimiter and returns the maximal
    delimiter-free pieces in order; the only delimiter is the space. *)

Definition is_delim (c : ascii) : bool := Ascii.eqb c " "%char.

Definition flush (cur : string) (rest : list string) : list string :=
  match cur with
  | EmptyString => rest
  | _ => cur :: rest
  end.

Fixpoint strtok_from (cur : string) (s : string) : list string :=
  match s with
  | EmptyString => flush cur []
  | String c s' =>
      if is_delim c then flush cur (strtok_from EmptyString s')
      else strtok_from (String.append cur (String c EmptyString)) s'
  end.

Definition tokenize (command : string) : list string :=
  strtok_from EmptyString command.

(** ** Redirection scan: the [for] loop over [tokens] *)

Record Redirect : Type := mkRedirect {
  tokens : list (option string);
  input_file : option string;
  output_file : option string;
  append_output : bool
}.

(** [tokens[i]] for a read: [None] when the slot is outside the initialised
    part of the array. *)
Definition read_slot (a : list (option string)) (i : nat)
  : option (option string) := a !! i.

(** One iteration of the loop body at index [i].  [None] is undefined
    behaviour: [strcmp] on a [NULL] slot, or a slot read out of range. *)
Definition redirect_step (i : nat) (r : Redirect) : option Redirect :=
  match read_slot (tokens r) i with
  | Some (Some t) =>
      if String.eqb t "<" then
        match read_slot (tokens r) (i + 1) with
        | Some nxt =>
            Some (mkRedirect (<[i := None]> (tokens r)) nxt
                    (output_file r) (append_output r))
        | None => None
        end
      else if String.eqb t ">" then
        match read_slot (tokens r) (i + 1) with
        | Some nxt =>
            Some (mkRedirect (<[i := None]> (tokens r)) (input_file r)
                    nxt (append_output r))
        | None => None
        end
      else if String.eqb t ">>" then
        match read_slot (tokens r) (i + 1) with
        | Some nxt =>
            Some (mkRedirect (<[i := None]> (tokens r)) (input_file r)
                    nxt true)
        | None => None
        end
      else Some r
  | _ => None
  end.

(** [for (int i = start; i < start + n; i++)] *)
Fixpoint redirect_loop (n : nat) (i : nat) (r : Redirect) : option Redirect :=
  match n with
  | O => Some r
  | S n' =>
      match redirect_step i r with
      | Some r' => redirect_loop n' (S i) r'
      | None => None
      end
  end.

(** The array after the tokenizer: the tokens, then [tokens[token_count] = NULL]. *)
Definition token_array (toks : list string) : list (option string) :=
  map Some toks ++ [None].

Definition redirect_init (toks : list string) : Redirect :=
  mkRedirect (token_array toks) None None false.

Definition extract_redirects (toks : list string) : option Redirect :=
  redirect_loop (length toks) 0 (redirect_init toks).

(** ** The platform

    The header takes these constants from [<fcntl.h>], [<spawn.h>] and
    [<signal.h>]; their values are the platform's. *)

Class Posix : Type := {
  O_RDONLY : Z;
  O_WRONLY : Z;
  O_CREAT : Z;
  O_TRUNC : Z;
  O_APPEND : Z;
  POSIX_SPAWN_SETSIGMASK : Z;
  POSIX_SPAWN_SETSIGDEF : Z;
  SIGINT : Z;
  SIGTERM : Z
}.

(** An entry made by [posix_spawn_file_actions_addopen]. *)
Record FileAction : Type := mkAddOpen {
  fa_fd : Z;
  fa_path : string;
  fa_oflag : Z;
  fa_mode : Z
}.

Record SpawnAttr : Type := mkSpawnAttr {
  attr_flags : Z;
  attr_sigmask : list Z
}.

(** The system calls the shell makes, as oracles over the state of the world.
    - [malloc_ok]: whether the allocation behind a [strdup] succeeds;
    - [sigprocmask w set]: result of [sigprocmask (SIG_BLOCK, set, NULL)];
    - [waitpid w pid]: result of [waitpid (pid, &status, WNOHANG)];
    - [posix_spawnp w file actions attr argv]: the status and the child pid. *)
Class System (World : Type) : Type := {
  malloc_ok : World -> bool * World;
  sigprocmask : World -> list Z -> Z * World;
  waitpid : World -> Z -> Z * World;
  posix_spawnp : World -> option string -> list FileAction -> SpawnAttr ->
                 list string -> Z * Z * World
}.

(** What the shell does to the outside, in order. *)
Inductive Event : Type :=
| Ev_sigprocmask (set : list Z)
| Ev_waitpid (p : Z)
| Ev_posix_spawnp (file : option string) (actions : list FileAction)
    (attr : SpawnAttr) (argv : list string)
| Ev_printf_done (i : Z) (cmd : option string)       (* "[%d] Done: %s\n" *)
| Ev_printf_history (i : Z) (entry : string)         (* "%d: %s\n" *)
| Ev_printf_job (i : Z) (is_running : bool) (cmd : option string).
                                                     (* "[%d] %s: %s\n" *)

Section Shell.

Context {px : Posix} {World : Type} {os : System World}.

Record Machine : Type := mkMachine {
  ctx : ExtendedShellContext;
  world : World;
  trace : list Event
}.

(** How a call ends: it returns a status, the process leaves through
    [exit], or the behaviour is undefined. *)
Inductive Outcome : Type :=
| Returned (e : ShellError) (m : Machine)
| Exited (code : Z) (m : Machine)
| Undefined.

Definition with_ctx (c : ExtendedShellContext) (m : Machine) : Machine :=
  mkMachine c (world m) (trace m).

Definition emit (evs : list Event) (m : Machine) : Machine :=
  mkMachine (ctx m) (world m) (trace m ++ evs).

Definition strdup (w : World) (s : string) : option string * World :=
  let '(ok, w') := malloc_ok w in
  ((if ok then Some s else None), w').

(** *** [shell_init] *)

Definition shell_init (w : World) (prompt_arg : option string)
  (interactive_arg : bool) : ShellError * Machine :=
  let '(p, w1) := strdup w (match prompt_arg with Some s => s | None => "> " end) in
  let mask := [SIGINT; SIGTERM] in
  let b := mkShellContext None None None [] [] (-1) mask SHELL_OK p
             interactive_arg in
  let c := mkExtendedShellContext b [] [] [] in
  let '(r, w2) := sigprocmask w1 mask in
  let m := mkMachine c w2 [Ev_sigprocmask mask] in
  if r =? -1 then
    (SHELL_ERROR_SIGNAL_HANDLING_FAILED,
     with_ctx (fail_with SHELL_ERROR_SIGNAL_HANDLING_FAILED c) m)
  else (SHELL_OK, m).

(** *** [shell_register_command] *)

Definition shell_register_command (m : Machine) (name_arg : option string)
  (callback_arg : option CommandCallback) : ShellError * Machine :=
  match name_arg, callback_arg with
  | Some n, Some cb =>
      if MAX_CUSTOM_COMMANDS <=? custom_command_count (ctx m) then
        (SHELL_ERROR_CUSTOM_COMMAND_FULL,
         with_ctx (fail_with SHELL_ERROR_CUSTOM_COMMAND_FULL (ctx m)) m)
      else
        let '(d, w') := strdup (world m) n in
        match d with
        | None =>
            (SHELL_ERROR_MEMORY_ALLOCATION,
             mkMachine (fail_with SHELL_ERROR_MEMORY_ALLOCATION (ctx m)) w'
               (trace m))
        | Some n' =>
            (SHELL_OK,
             mkMachine
               (with_custom_commands
                  (custom_commands (ctx m) ++ [mkCustomCommand n' cb]) (ctx m))
               w' (trace m))
        end
  | _, _ => (SHELL_ERROR_NULL_POINTER, m)
  end.

(** *** [shell_add_job] *)

Definition shell_add_job (m : Machine) (pid_arg : Z)
  (command_arg : option string) : ShellError * Machine :=
  match command_arg with
  | None => (SHELL_ERROR_NULL_POINTER, m)
  | Some c =>
      if MAX_JOBS <=? job_count (ctx m) then
        (SHELL_ERROR_JOB_CONTROL_FULL,
         with_ctx (fail_with SHELL_ERROR_JOB_CONTROL_FULL (ctx m)) m)
      else
        let '(d, w') := strdup (world m) c in
        (SHELL_OK,
         mkMachine (with_jobs (jobs (ctx m) ++ [mkJob pid_arg d true]) (ctx m))
           w' (trace m))
  end.

(** *** [shell_update_jobs]

    The loop over [jobs[i]], [i] counting from [i0]; it returns the updated
    slots, the world and the events it produced. *)

Fixpoint update_jobs_from (i0 : Z) (js : list Job) (w : World)
  : list Job * World * list Event :=
  match js with
  | [] => ([], w, [])
  | j :: rest =>
      if running j then
        let '(result, w1) := waitpid w (pid j) in
        if 0 <? result then
          let '(rest', w2, evs) := update_jobs_from (i0 + 1) rest w1 in
          (mkJob (pid j) (command j) false :: rest', w2,
           Ev_waitpid (pid j) :: Ev_printf_done (i0 + 1) (command j) :: evs)
        else
          let '(rest', w2, evs) := update_jobs_from (i0 + 1) rest w1 in
          (j :: rest', w2, Ev_waitpid (pid j) :: evs)
      else
        let '(rest', w2, evs) := update_jobs_from (i0 + 1) rest w in
        (j :: rest', w2, evs)
  end.

Definition shell_update_jobs (m : Machine) : ShellError * Machine :=
  let '(js, w, evs) := update_jobs_from 0 (jobs (ctx m)) (world m) in
  (SHELL_OK, mkMachine (with_jobs js (ctx m)) w (trace m ++ evs)).

(** *** [shell_execute_custom] *)

Inductive Lookup : Type :=
| Found (c : CustomCommand)
| NotFound
| Crash.

(** The scan [strcmp (argv[0], custom_commands[i].name) == 0]; [argv0] is the
    result of reading slot 0 of [argv].  The read and the comparison happen
    only when there is an entry to compare with. *)
Fixpoint custom_lookup (argv0 : option (option string))
  (cmds : list CustomCommand) : Lookup :=
  match cmds with
  | [] => NotFound
  | c :: rest =>
      match argv0 with
      | Some (Some a) =>
          if String.eqb a (name c) then Found c else custom_lookup argv0 rest
      | _ => Crash
      end
  end.

Definition shell_execute_custom (m : Machine) (argc : Z)
  (argv : list (option string)) : Outcome :=
  match custom_lookup (read_slot argv 0) (custom_commands (ctx m)) with
  | Found c =>
      let '(e, b') := callback c (base (ctx m)) argc argv in
      Returned e (with_ctx (with_base b' (ctx m)) m)
  | NotFound =>
      Returned SHELL_ERROR_COMMAND_NOT_FOUND
        (with_ctx (fail_with SHELL_ERROR_COMMAND_NOT_FOUND (ctx m)) m)
  | Crash => Undefined
  end.

(** *** [shell_execute_builtin] *)

Fixpoint print_history (i0 : Z) (h : list string) : list Event :=
  match h with
  | [] => []
  | e :: rest => Ev_printf_history (i0 + 1) e :: print_history (i0 + 1) rest
  end.

Fixpoint print_jobs (i0 : Z) (js : list Job) : list Event :=
  match js with
  | [] => []
  | j :: rest =>
      Ev_printf_job (i0 + 1) (running j) (command j) :: print_jobs (i0 + 1) rest
  end.

Definition shell_execute_builtin (m : Machine) (command_arg : option string)
  : Outcome :=
  match command_arg with
  | None => Returned SHELL_ERROR_NULL_POINTER m
  | Some c =>
      if String.eqb c "exit" then Exited 0 m
      else if String.eqb c "history" then
        Returned SHELL_OK (emit (print_history 0 (history (base (ctx m)))) m)
      else if String.eqb c "jobs" then
        let '(_, m1) := shell_update_jobs m in
        Returned SHELL_OK (emit (print_jobs 0 (jobs (ctx m1))) m1)
      else
        Returned SHELL_ERROR_COMMAND_NOT_FOUND
          (with_ctx (fail_with SHELL_ERROR_COMMAND_NOT_FOUND (ctx m)) m)
  end.

(** *** [shell_execute_external] *)

(** The argument vector as [posix_spawnp] walks it: the strings up to the
    first [NULL]; [None] when the array holds no [NULL]. *)
Fixpoint c_argv (a : list (option string)) : option (list string) :=
  match a with
  | [] => None
  | None :: _ => Some []
  | Some s :: rest =>
      match c_argv rest with
      | Some l => Some (s :: l)
      | None => None
      end
  end.

Definition input_actions (input_file_arg : option string) : list FileAction :=
  match input_file_arg with
  | Some f => [mkAddOpen STDIN_FILENO f O_RDONLY 0]
  | None => []
  end.

Definition output_flags (append_arg : bool) : Z :=
  Z.lor (Z.lor O_WRONLY O_CREAT) (if append_arg then O_APPEND else O_TRUNC).

Definition output_actions (output_file_arg : option string) (append_arg : bool)
  : list FileAction :=
  match output_file_arg with
  | Some f => [mkAddOpen STDOUT_FILENO f (output_flags append_arg) 420]
  | None => []
  end.

Definition file_actions (input_file_arg output_file_arg : option string)
  (append_arg : bool) : list FileAction :=
  input_actions input_file_arg ++ output_actions output_file_arg append_arg.

Definition shell_execute_external (m : Machine) (argv : list (option string))
  (input_file_arg output_file_arg : option string) (append_arg : bool)
  : Outcome :=
  let attr :=
    mkSpawnAttr (Z.lor POSIX_SPAWN_SETSIGMASK POSIX_SPAWN_SETSIGDEF)
      (signal_mask (base (ctx m))) in
  let actions := file_actions input_file_arg output_file_arg append_arg in
  match read_slot argv 0, c_argv argv with
  | Some file, Some args =>
      let '(status, child, w') := posix_spawnp (world m) file actions attr args in
      let m1 :=
        mkMachine (ctx m) w' (trace m ++ [Ev_posix_spawnp file actions attr args]) in
      if status =? 0 then
        let '(_, m2) := shell_add_job m1 child file in
        Returned SHELL_OK m2
      else
        Returned SHELL_ERROR_EXECUTION_FAILED
          (with_ctx (fail_with SHELL_ERROR_EXECUTION_FAILED (ctx m1)) m1)
  | _, _ => Undefined
  end.

(** *** [shell_execute_command] *)

(** The three calls that end [shell_execute_command]: each later stage runs
    only when the stage before it returned something other than [SHELL_OK]. *)
Definition resolve_command (m : Machine) (token_count : Z) (r : Redirect)
  : Outcome :=
  match shell_execute_custom m token_count (tokens r) with
  | Returned SHELL_OK m1 => Returned SHELL_OK m1
  | Returned _ m1 =>
      match read_slot (tokens r) 0 with
      | None => Undefined
      | Some t0 =>
          match shell_execute_builtin m1 t0 with
          | Returned SHELL_OK m2 => Returned SHELL_OK m2
          | Returned _ m2 =>
              shell_execute_external m2 (tokens r) (input_file r)
                (output_file r) (append_output r)
          | o => o
          end
      end
  | o => o
  end.

(** The function starts with [if (!ctx || !command) return
    SHELL_ERROR_NULL_POINTER]; a [NULL] command is [None].  The [tokens] array
    has [MAX_INPUT_SIZE] slots and the tokenizer stores [token_count] tokens
    and one [NULL] without a check: a line with [MAX_INPUT_SIZE] tokens or
    more overruns it. *)
Definition shell_execute_command (m : Machine) (command_arg : option string)
  : Outcome :=
  match command_arg with
  | None => Returned SHELL_ERROR_NULL_POINTER m
  | Some command_text =>
      let toks := tokenize command_text in
      let token_count := Z.of_nat (length toks) in
      if MAX_INPUT_SIZE <=? token_count then Undefined
      else
        match extract_redirects toks with
        | None => Undefined
        | Some r => resolve_command m token_count r
        end
  end.

End Shell.

Arguments Machine : clear implicits.
Arguments Outcome : clear implicits.

(** ** Auxiliary definitions for the statements *)

Fixpoint all_spaces (s : string) : bool :=
  match s with
  | EmptyString => true
  | String c s' => is_delim c && all_spaces s'
  end.

Definition is_input_op (t : string) : bool := String.eqb t "<".
Definition is_output_op (t : string) : bool :=
  String.eqb t ">" || String.eqb t ">>".
Definition is_redirect_op (t : string) : bool :=
  is_input_op t || is_output_op t.

(** The slot a token leaves behind once the loop has passed it. *)
Definition scanned_slot (t : string) : option string :=
  if is_redirect_op t then None else Some t.

(** The three variables of the loop after it has run over the tokens [ts],
    starting from the values [i], [o] and [a]; the slot after the last token
    is the terminator. *)
Fixpoint scan_files (ts : list string) (i o : option string) (a : bool)
  : option string * option string * bool :=
  match ts with
  | [] => (i, o, a)
  | t :: rest =>
      let nxt := head rest in
      if String.eqb t "<" then scan_files rest nxt o a
      else if String.eqb t ">" then scan_files rest i nxt a
      else if String.eqb t ">>" then scan_files rest i nxt true
      else scan_files rest i o a
  end.

Definition scanned (done rest : list string) (i o : option string) (a : bool)
  : Redirect :=
  mkRedirect (map scanned_slot done ++ map Some rest ++ [None]) i o a.

Definition scan_input (ts : list string) : option string :=
  fst (fst (scan_files ts None None false)).
Definition scan_output (ts : list string) : option string :=
  snd (fst (scan_files ts None None false)).
Definition scan_append (ts : list string) : bool :=
  snd (scan_files ts None None false).

Definition no_output_op (ts : list string) : bool :=
  forallb (fun t => negb (is_output_op t)) ts.
Definition no_input_op (ts : list string) : bool :=
  forallb (fun t => negb (is_input_op t)) ts.
Definition no_redirect_op (ts : list string) : bool :=
  forallb (fun t => negb (is_redirect_op t)) ts.

(** The tokens that precede the first redirection operator. *)
Fixpoint before_redirect (ts : list string) : list string :=
  match ts with
  | [] => []
  | t :: rest => if is_redirect_op t then [] else t :: before_redirect rest
  end.

(** The argument list as the specification words it (section 4.2), for
    comparison with what the code hands on: every operator is dropped
    together with the token that follows it. *)
Fixpoint spec_filtered_arguments (ts : list string) : list string :=
  match ts with
  | [] => []
  | t :: rest =>
      if is_redirect_op t then
        match rest with
        | [] => []
        | _ :: rest' => spec_filtered_arguments rest'
        end
      else t :: spec_filtered_arguments rest
  end.

(** ** Sessions *)

Section Sessions.

Context {px : Posix} {World : Type} {os : System World}.

(** The machines a session can be in: [shell_init], then any calls of the
    library's functions that return. *)
Inductive reachable : Machine World -> Prop :=
| reach_init (w : World) (p : option string) (i : bool) :
    reachable (snd (shell_init w p i))
| reach_register (m : Machine World) (n : option string)
    (cb : option CommandCallback) :
    reachable m -> reachable (snd (shell_register_command m n cb))
| reach_add_job (m : Machine World) (p : Z) (c : option string) :
    reachable m -> reachable (snd (shell_add_job m p c))
| reach_update_jobs (m : Machine World) :
    reachable m -> reachable (snd (shell_update_jobs m))
| reach_custom (m : Machine World) (argc : Z) (argv : list (option string))
    (e : ShellError) (m' : Machine World) :
    reachable m -> shell_execute_custom m argc argv = Returned e m' ->
    reachable m'
| reach_builtin (m : Machine World) (c : option string)
    (e : ShellError) (m' : Machine World) :
    reachable m -> shell_execute_builtin m c = Returned e m' ->
    reachable m'
| reach_external (m : Machine World) (argv : list (option string))
    (i o : option string) (a : bool) (e : ShellError) (m' : Machine World) :
    reachable m -> shell_execute_external m argv i o a = Returned e m' ->
    reachable m'
| reach_command (m : Machine World) (line : option string)
    (e : ShellError) (m' : Machine World) :
    reachable m -> shell_execute_command m line = Returned e m' ->
    reachable m'.

(** Registrations in order; [None] as soon as one does not return [SHELL_OK]. *)
Fixpoint register_all (m : Machine World)
  (l : list (string * CommandCallback)) : option (Machine World) :=
  match l with
  | [] => Some m
  | (n, cb) :: rest =>
      match shell_register_command m (Some n) (Some cb) with
      | (SHELL_OK, m') => register_all m' rest
      | _ => None
      end
  end.

(** The table entry a successful registration stores. *)
Definition entry_of (nc : string * CommandCallback) : CustomCommand :=
  mkCustomCommand (fst nc) (snd nc).

(** [n] polls of the job table in a row. *)
Fixpoint polls (n : nat) (m : Machine World) : Machine World :=
  match n with
  | O => m
  | S k => polls k (snd (shell_update_jobs m))
  end.

(** [n] jobs added in a row. *)
Fixpoint add_jobs (n : nat) (p : Z) (c : string) (m : Machine World)
  : Machine World :=
  match n with
  | O => m
  | S k => add_jobs k (p + 1) c (snd (shell_add_job m p (Some c)))
  end.

Definition all_settled (js : list Job) : bool :=
  forallb (fun j => negb (running j)) js.

(** The pids a list of events asks [waitpid] about, in order. *)
Definition status_checks (evs : list Event) : list Z :=
  omap (fun e => match e with Ev_waitpid p => Some p | _ => None end) evs.

(** The pids of the jobs still marked running, in table order. *)
Definition running_pids (js : list Job) : list Z :=
  map pid (List.filter running js).

Definition spawn_attr (m : Machine World) : SpawnAttr :=
  mkSpawnAttr (Z.lor POSIX_SPAWN_SETSIGMASK POSIX_SPAWN_SETSIGDEF)
    (signal_mask (base (ctx m))).

End Sessions.

(** ** A concrete platform and system, for running the definitions *)

(** The values of Linux with glibc. *)
Definition linux : Posix :=
  {| O_RDONLY := 0; O_WRONLY := 1; O_CREAT := 64; O_TRUNC := 512;
     O_APPEND := 1024; POSIX_SPAWN_SETSIGMASK := 8; POSIX_SPAWN_SETSIGDEF := 4;
     SIGINT := 2; SIGTERM := 15 |}.

(** A system whose world counts the children spawned so far: allocation
    succeeds, a spawn without a file name fails, any other spawn succeeds with
    a fresh pid, and every child waited for has already exited. *)
Definition counting_system : System nat :=
  {| malloc_ok := fun w => (true, w);
     sigprocmask := fun w _ => (0, w);
     waitpid := fun w p => (p, w);
     posix_spawnp := fun w file _ _ _ =>
       match file with
       | Some _ => (0, 1000 + Z.of_nat w, S w)
       | None => (14, 0, w)
       end |}.

Definition fresh : Machine nat :=
  snd (shell_init (px := linux) (os := counting_system) 0%nat None true).

(** A callback that fails. *)
Definition failing_callback : CommandCallback :=
  fun b _ _ => (SHELL_ERROR_EXECUTION_FAILED, b).

(** A callback that succeeds. *)
Definition ok_callback : CommandCallback :=
  fun b _ _ => (SHELL_OK, b).

(** A callback that succeeds and notes what it was handed: [argc] in
    [child_pid], the non-[NULL] slots among the first [argc] of [argv] in
    [history]. *)
Definition noting_callback : CommandCallback :=
  fun b argc argv =>
    (SHELL_OK,
     mkShellContext (input b) (output b) (error b)
       (omap id (firstn (Z.to_nat argc) argv)) (env_vars b) argc
       (signal_mask b) (last_error b) (prompt b) (interactive b)).

Definition register (n : string) (cb : CommandCallback) (m : Machine nat)
  : Machine nat :=
  snd (shell_register_command (os := counting_system) m (Some n) (Some cb)).

Definition echo2_machine : Machine nat := register "echo2" ok_callback fresh.
Definition hello_machine : Machine nat := register "hello" failing_callback fresh.

(** A session whose job table has been filled. *)
Definition full_machine : Machine nat :=
  add_jobs (os := counting_system) 100 1 "sleep" fresh.

(** A session with three jobs, the second one already settled. *)
Definition three_jobs_machine : Machine nat :=
  mkMachine
    (with_jobs [mkJob 11 (Some "a") true; mkJob 12 (Some "b") false;
                mkJob 13 (Some "c") true] (ctx fresh))
    3%nat (trace fresh).

(** Fifty distinct names: one character each, codes 65 to 114. *)
Definition fifty_commands : list (string * CommandCallback) :=
  map (fun k => (String (ascii_of_nat (65 + k)) EmptyString, ok_callback))
    (seq 0 50).

Definition fifty_machine : Machine nat :=
  match register_all (os := counting_system) fresh fifty_commands with
  | Some m => m
  | None => fresh
  end.

(** ** Further definitions for the statements *)

(** A well-formed token: not empty, and free of the delimiter. *)
Fixpoint no_delim (s : string) : bool :=
  match s with
  | EmptyString => true
  | String c s' => negb (is_delim c) && no_delim s'
  end.

Definition token_ok (t : string) : bool :=
  match t with
  | EmptyString => false
  | _ => no_delim t
  end.

(** The tokens written out on one line, a single space between neighbours. *)
Fixpoint join_tokens (ts : list string) : string :=
  match ts with
  | [] => EmptyString
  | [t] => t
  | t :: rest => String.append t (String " "%char (join_tokens rest))
  end.

(** The names the built-in stage answers to. *)
Definition is_builtin_name (t : string) : bool :=
  String.eqb t "exit" || String.eqb t "history" || String.eqb t "jobs".

(** A system in which no program can be spawned and no child has exited. *)
Definition barren_system : System nat :=
  {| malloc_ok := fun w => (true, w);
     sigprocmask := fun w _ => (0, w);
     waitpid := fun w _ => (0, w);
     posix_spawnp := fun w _ _ _ _ => (2, 0, w) |}.

(** The machine in which the later stages run once the custom stage has
    found no entry. *)
Definition after_custom_miss {World : Type} (m : Machine World)
  : Machine World :=
  with_ctx (fail_with SHELL_ERROR_COMMAND_NOT_FOUND (ctx m)) m.

(** A session with two history entries. *)
Definition history_machine : Machine nat :=
  mkMachine
    (with_base
       (mkShellContext None None None ["ls"; "pwd"] [] (-1) [2; 15] SHELL_OK
          (Some "> ") true)
       (ctx fresh))
    0%nat (trace fresh).

(** The "Done" notices among a list of events: index and command text. *)
Definition done_notices (evs : list Event) : list (Z * option string) :=
  omap (fun e => match e with
                 | Ev_printf_done i c => Some (i, c)
                 | _ => None
                 end) evs.

(** What identifies a job for good: its pid and its command text. *)
Definition job_labels (js : list Job) : list (Z * option string) :=
  map (fun j => (pid j, command j)) js.

Section Steps.

Context {px : Posix} {World : Type} {os : System World}.

(** One call of a library function that returns. *)
Inductive session_step : Machine World -> Machine World -> Prop :=
| step_register (m : Machine World) (n : option string)
    (cb : option CommandCallback) :
    session_step m (snd (shell_register_command m n cb))
| step_add_job (m : Machine World) (p : Z) (c : option string) :
    session_step m (snd (shell_add_job m p c))
| step_update_jobs (m : Machine World) :
    session_step m (snd (shell_update_jobs m))
| step_custom (m : Machine World) (argc : Z) (argv : list (option string))
    (e : ShellError) (m' : Machine World) :
    shell_execute_custom m argc argv = Returned e m' -> session_step m m'
| step_builtin (m : Machine World) (c : option string)
    (e : ShellError) (m' : Machine World) :
    shell_execute_builtin m c = Returned e m' -> session_step m m'
| step_external (m : Machine World) (argv : list (option string))
    (i o : option string) (a : bool) (e : ShellError) (m' : Machine World) :
    shell_execute_external m argv i o a = Returned e m' -> session_step m m'
| step_command (m : Machine World) (line : option string)
    (e : ShellError) (m' : Machine World) :
    shell_execute_command m line = Returned e m' -> session_step m m'.

(** Any number of calls in a row. *)
Inductive session_steps : Machine World -> Machine World -> Prop :=
| steps_done (m : Machine World) : session_steps m m
| steps_next (m1 m2 m3 : Machine World) :
    session_step m1 m2 -> session_steps m2 m3 -> session_steps m1 m3.

End Steps.

(** ** The main loop: [shell_run]

    Standard input is the string of bytes not yet read (NUL bytes are
    possible), end of file after the last one. *)

Definition newline : ascii := ascii_of_nat 10.

(** The characters [fgets] stores when it may store [n] of them: up to and
    including the first newline, or [n] characters, or what is left; and the
    input that remains. *)
Fixpoint fgets_chars (n : nat) (stdin : string) : string * string :=
  match n with
  | O => (EmptyString, stdin)
  | S n' =>
      match stdin with
      | EmptyString => (EmptyString, EmptyString)
      | String c rest =>
          if Ascii.eqb c newline then (String c EmptyString, rest)
          else
            let '(chunk, rest') := fgets_chars n' rest in
            (String c chunk, rest')
      end
  end.

(** [fgets (input, size, stdin)]: [None] is the [NULL] returned at end of
    file. *)
Definition fgets (size : Z) (stdin : string) : option (string * string) :=
  match stdin with
  | EmptyString => None
  | _ => Some (fgets_chars (Z.to_nat (size - 1)) stdin)
  end.

Definition nul : ascii := ascii_of_nat 0.

(** The C string a buffer holds: its characters before the first NUL.  The
    bytes [fgets] stores may include NUL bytes read from the input. *)
Fixpoint c_string (s : string) : string :=
  match s with
  | EmptyString => EmptyString
  | String c s' =>
      if Ascii.eqb c nul then EmptyString else String c (c_string s')
  end.

(** The C string that [input] holds after
    [input[strcspn (input, "\n")] = 0]: [strcspn] counts the characters of
    the C string before its first newline, so what is left is what precedes
    the first newline or NUL of the buffer. *)
Fixpoint strip_newline (s : string) : string :=
  match s with
  | EmptyString => EmptyString
  | String c s' =>
      if Ascii.eqb c newline || Ascii.eqb c nul then EmptyString
      else String c (strip_newline s')
  end.

Fixpoint no_newline (s : string) : bool :=
  match s with
  | EmptyString => true
  | String c s' => negb (Ascii.eqb c newline) && no_newline s'
  end.

Section Run.

Context {px : Posix} {World : Type} {os : System World}.

(** [shell_add_history] is called by [shell_run] and defined nowhere in the
    header: it is a parameter here.  It is handed [&ctx->base] and the line,
    and its result is discarded by the caller. *)
Variable shell_add_history : World -> ShellContext -> string -> ShellContext * World.

(** How [shell_run] ends; [prompts] are the prompts printed, in order. *)
Inductive RunOutcome : Type :=
| Run_returned (e : ShellError) (m : Machine World)
    (prompts : list (option string))
| Run_exited (code : Z) (m : Machine World) (prompts : list (option string))
| Run_undefined
| Run_out_of_fuel.

Definition add_history_step (m : Machine World) (line : string)
  : Machine World :=
  let '(b', w') := shell_add_history (world m) (base (ctx m)) line in
  mkMachine (with_base b' (ctx m)) w' (trace m).

Definition prompt_step (m : Machine World) (prompts : list (option string))
  : list (option string) :=
  if interactive (base (ctx m)) then prompts ++ [prompt (base (ctx m))]
  else prompts.

(** The [while (true)] loop, at most [fuel] iterations of it. *)
Fixpoint run_loop (fuel : nat) (m : Machine World) (stdin : string)
  (prompts : list (option string)) : RunOutcome :=
  match fuel with
  | O => Run_out_of_fuel
  | S fuel' =>
      let prompts1 := prompt_step m prompts in
      match fgets MAX_INPUT_SIZE stdin with
      | None =>
          Run_returned SHELL_ERROR_INVALID_INPUT
            (with_ctx (fail_with SHELL_ERROR_INVALID_INPUT (ctx m)) m) prompts1
      | Some (chunk, rest) =>
          let line := strip_newline chunk in
          match shell_execute_command (add_history_step m line) (Some line)
          with
          | Returned _ m' => run_loop fuel' m' rest prompts1
          | Exited code m' => Run_exited code m' prompts1
          | Undefined => Run_undefined
          end
      end
  end.

(** Every iteration that goes on has read at least one character, so one
    iteration more than there are characters is enough. *)
Definition shell_run (m : Machine World) (stdin : string) : RunOutcome :=
  run_loop (S (String.length stdin)) m stdin [].

End Run.

Arguments RunOutcome : clear implicits.

(** The outcome [o] of a run that started after [p] had been printed. *)
Definition with_prompts {World : Type} (p : list (option string))
  (o : RunOutcome World) : RunOutcome World :=
  match o with
  | Run_returned e m q => Run_returned e m (p ++ q)
  | Run_exited code m q => Run_exited code m (p ++ q)
  | Run_undefined => Run_undefined
  | Run_out_of_fuel => Run_out_of_fuel
  end.

(** A history collaborator that appends the line. *)
Definition appending_history (w : nat) (b : ShellContext) (line : string)
  : ShellContext * nat :=
  (mkShellContext (input b) (output b) (error b) (history b ++ [line])
     (env_vars b) (child_pid b) (signal_mask b) (last_error b) (prompt b)
     (interactive b), w).

(** A line of 1023 characters without a newline. *)
Definition long_chunk : string :=
  string_of_list_ascii (repeat "a"%char 1023).

(** A line of 1024 tokens that ends in a redirection operator. *)
Definition overlong_tokens : list string := repeat "a" 1023 ++ [">"].

(** * Properties *)

Ltac split_ops :=
  unfold is_redirect_op, is_output_op, is_input_op in *;
  repeat match goal with
    | H : (_ || _)%bool = true |- _ => apply orb_prop in H as [H|H]
    | H : (_ && _)%bool = true |- _ => apply andb_prop in H as [? ?]
    | H : negb _ = true |- _ => apply negb_true_iff in H
    | H : (_ || _)%bool = false |- _ => apply orb_false_elim in H as [? ?]
    | H : String.eqb _ _ = true |- _ => apply String.eqb_eq in H; subst
    end.

Example tokenize_cat :
  tokenize "cat < in.txt  > out.txt" = ["cat"; "<"; "in.txt"; ">"; "out.txt"].
Proof. reflexivity. Qed.

Example extract_cat :
  extract_redirects ["cat"; "<"; "in.txt"; ">"; "out.txt"] =
  Some (mkRedirect [Some "cat"; None; Some "in.txt"; None; Some "out.txt"; None]
          (Some "in.txt") (Some "out.txt") false).
Proof. reflexivity. Qed.

(** ** The tokenizer *)

Lemma tokenize_all_spaces (s : string) :
  all_spaces s = true -> tokenize s = [].
Proof.
  unfold tokenize. induction s as [|c s IH]; simpl; [reflexivity|].
  intros H. apply andb_prop in H as [Hc Hs]. rewrite Hc. simpl. auto.
Qed.

Example tokenize_tab : tokenize (String (ascii_of_nat 9) EmptyString) <> [].
Proof. discriminate. Qed.

(** ** The redirection scan, read off the token list *)

Lemma read_current (done rest : list string) (t : string) :
  read_slot (map scanned_slot done ++ map Some (t :: rest) ++ [None])
    (length done) = Some (Some t).
Proof.
  unfold read_slot. rewrite lookup_app_r by (rewrite length_map; lia).
  rewrite length_map, Nat.sub_diag. reflexivity.
Qed.

Lemma read_next (done rest : list string) (t : string) :
  read_slot (map scanned_slot done ++ map Some (t :: rest) ++ [None])
    (length done + 1) = Some (head rest).
Proof.
  unfold read_slot. rewrite lookup_app_r by (rewrite length_map; lia).
  rewrite length_map.
  replace (length done + 1 - length done)%nat with 1%nat by lia.
  destruct rest; reflexivity.
Qed.

Lemma clear_current (done rest : list string) (t : string) :
  <[length done := None]>
    (map scanned_slot done ++ map Some (t :: rest) ++ [None]) =
  map scanned_slot done ++ None :: map Some rest ++ [None].
Proof.
  rewrite insert_app_r_alt by (rewrite length_map; lia).
  rewrite length_map, Nat.sub_diag. reflexivity.
Qed.

Lemma scanned_snoc (done rest : list string) (t : string) (s : option string) :
  s = scanned_slot t ->
  map scanned_slot done ++ s :: map Some rest ++ [None] =
  map scanned_slot (done ++ [t]) ++ map Some rest ++ [None].
Proof. intros ->. rewrite map_app, <- app_assoc. reflexivity. Qed.

Lemma redirect_step_scanned (done rest : list string) (t : string)
  (i o : option string) (a : bool) :
  exists i' o' a',
    redirect_step (length done) (scanned done (t :: rest) i o a) =
      Some (scanned (done ++ [t]) rest i' o' a') /\
    scan_files (t :: rest) i o a = scan_files rest i' o' a'.
Proof.
  unfold redirect_step, scanned. cbn [tokens input_file output_file append_output].
  rewrite read_current, read_next, clear_current.
  cbn [scan_files].
  destruct (String.eqb t "<") eqn:E1;
    [|destruct (String.eqb t ">") eqn:E2;
      [|destruct (String.eqb t ">>") eqn:E3]].
  - eexists _, _, _. split; [|reflexivity]. f_equal. f_equal.
    apply scanned_snoc. unfold scanned_slot, is_redirect_op, is_input_op.
    rewrite E1. reflexivity.
  - eexists _, _, _. split; [|reflexivity]. f_equal. f_equal.
    apply scanned_snoc.
    unfold scanned_slot, is_redirect_op, is_input_op, is_output_op.
    rewrite E1, E2. reflexivity.
  - eexists _, _, _. split; [|reflexivity]. f_equal. f_equal.
    apply scanned_snoc.
    unfold scanned_slot, is_redirect_op, is_input_op, is_output_op.
    rewrite E1, E2, E3. reflexivity.
  - eexists _, _, _. split; [|reflexivity]. f_equal. f_equal.
    change (map Some (t :: rest)) with (Some t :: map Some rest).
    apply scanned_snoc.
    unfold scanned_slot, is_redirect_op, is_input_op, is_output_op.
    rewrite E1, E2, E3. reflexivity.
Qed.

Lemma redirect_loop_scanned (rest done : list string)
  (i o : option string) (a : bool) :
  redirect_loop (length rest) (length done) (scanned done rest i o a) =
  Some (let '(i', o', a') := scan_files rest i o a in
        scanned (done ++ rest) [] i' o' a').
Proof.
  revert done i o a. induction rest as [|t rest IH]; intros done i o a.
  - simpl. rewrite app_nil_r. reflexivity.
  - destruct (redirect_step_scanned done rest t i o a)
      as (i' & o' & a' & Hstep & Hscan).
    cbn [length redirect_loop]. rewrite Hstep.
    replace (S (length done)) with (length (done ++ [t]))
      by (rewrite length_app; simpl; lia).
    rewrite IH, Hscan, <- app_assoc. reflexivity.
Qed.

(** The scan never leaves the initialised part of the array, and its result
    is determined by the token list. *)
Lemma extract_redirects_total (toks : list string) :
  extract_redirects toks =
  Some (let '(i, o, a) := scan_files toks None None false in
        mkRedirect (map scanned_slot toks ++ [None]) i o a).
Proof.
  unfold extract_redirects, redirect_init, token_array.
  exact (redirect_loop_scanned toks [] None None false).
Qed.

Lemma extract_redirects_fields (toks : list string) :
  exists r, extract_redirects toks = Some r /\
    tokens r = map scanned_slot toks ++ [None] /\
    input_file r = scan_input toks /\
    output_file r = scan_output toks /\
    append_output r = scan_append toks.
Proof.
  rewrite extract_redirects_total. unfold scan_input, scan_output, scan_append.
  destruct (scan_files toks None None false) as [[i o] a].
  eexists. split; [reflexivity|]. simpl. auto.
Qed.

Lemma scan_files_no_output (ts : list string) (i o : option string) (a : bool) :
  no_output_op ts = true -> snd (fst (scan_files ts i o a)) = o.
Proof.
  revert i o a. induction ts as [|t ts IH]; intros i o a H; [reflexivity|].
  cbn [no_output_op forallb] in H. apply andb_prop in H as [Ht Hts].
  split_ops. cbn [scan_files]. rewrite H, H0.
  destruct (String.eqb t "<"); apply IH; exact Hts.
Qed.

Lemma scan_files_no_input (ts : list string) (i o : option string) (a : bool) :
  no_input_op ts = true -> fst (fst (scan_files ts i o a)) = i.
Proof.
  revert i o a. induction ts as [|t ts IH]; intros i o a H; [reflexivity|].
  cbn [no_input_op forallb] in H. apply andb_prop in H as [Ht Hts].
  split_ops. cbn [scan_files]. rewrite Ht.
  destruct (String.eqb t ">"); [|destruct (String.eqb t ">>")];
    apply IH; exact Hts.
Qed.

(** The output path is the slot after the last output operator. *)
Lemma scan_files_last_output (pre post : list string) (op : string)
  (i o : option string) (a : bool) :
  is_output_op op = true -> no_output_op post = true ->
  snd (fst (scan_files (pre ++ op :: post) i o a)) = head post.
Proof.
  intros Hop Hpost. revert i o a.
  induction pre as [|t pre IH]; intros i o a.
  - cbn [app scan_files]. split_ops; simpl;
      apply scan_files_no_output; exact Hpost.
  - change ((t :: pre) ++ op :: post) with (t :: (pre ++ op :: post)).
    cbn [scan_files].
    destruct (String.eqb t "<"); [|destruct (String.eqb t ">");
      [|destruct (String.eqb t ">>")]]; apply IH.
Qed.

Lemma scan_files_last_input (pre post : list string) (op : string)
  (i o : option string) (a : bool) :
  is_input_op op = true -> no_input_op post = true ->
  fst (fst (scan_files (pre ++ op :: post) i o a)) = head post.
Proof.
  intros Hop Hpost. revert i o a.
  induction pre as [|t pre IH]; intros i o a.
  - cbn [app scan_files]. split_ops; simpl.
    apply scan_files_no_input; exact Hpost.
  - change ((t :: pre) ++ op :: post) with (t :: (pre ++ op :: post)).
    cbn [scan_files].
    destruct (String.eqb t "<"); [|destruct (String.eqb t ">");
      [|destruct (String.eqb t ">>")]]; apply IH.
Qed.

(** The append flag is set by any [>>] and by nothing else. *)
Lemma scan_files_append (ts : list string) (i o : option string) (a : bool) :
  snd (scan_files ts i o a) = (a || existsb (fun t => String.eqb t ">>") ts)%bool.
Proof.
  revert i o a. induction ts as [|t ts IH]; intros i o a.
  - simpl. rewrite orb_false_r. reflexivity.
  - cbn [scan_files existsb].
    destruct (String.eqb t "<") eqn:E1; [|destruct (String.eqb t ">") eqn:E2;
      [|destruct (String.eqb t ">>") eqn:E3]]; rewrite IH; split_ops;
      simpl; try reflexivity.
    rewrite orb_true_r. reflexivity.
Qed.

Lemma c_argv_scanned (ts : list string) :
  c_argv (map scanned_slot ts ++ [None]) = Some (before_redirect ts).
Proof.
  induction ts as [|t ts IH]; [reflexivity|].
  cbn [map app before_redirect]. unfold scanned_slot at 1.
  destruct (is_redirect_op t); [reflexivity|].
  cbn [c_argv]. rewrite IH. reflexivity.
Qed.

Lemma before_redirect_prefix (pre post : list string) (op : string) :
  no_redirect_op pre = true -> is_redirect_op op = true ->
  before_redirect (pre ++ op :: post) = pre.
Proof.
  intros Hpre Hop. induction pre as [|t pre IH].
  - simpl. rewrite Hop. reflexivity.
  - cbn [no_redirect_op forallb] in Hpre. apply andb_prop in Hpre as [Ht Hpre].
    apply negb_true_iff in Ht. cbn [app before_redirect]. rewrite Ht.
    f_equal. apply IH. exact Hpre.
Qed.

(** ** Command dispatch *)

Section Dispatch.

Context {px : Posix} {World : Type} {os : System World}.

Lemma shell_execute_command_resolve (m : Machine World) (line : string) :
  Z.of_nat (length (tokenize line)) < MAX_INPUT_SIZE ->
  exists r, extract_redirects (tokenize line) = Some r /\
    tokens r = map scanned_slot (tokenize line) ++ [None] /\
    input_file r = scan_input (tokenize line) /\
    output_file r = scan_output (tokenize line) /\
    append_output r = scan_append (tokenize line) /\
    shell_execute_command m (Some line) =
      resolve_command m (Z.of_nat (length (tokenize line))) r.
Proof.
  intros Hlen.
  destruct (extract_redirects_fields (tokenize line))
    as (r & Hr & Ht & Hi & Ho & Ha).
  exists r. repeat (split; [assumption|]).
  unfold shell_execute_command.
  destruct (Z.leb_spec MAX_INPUT_SIZE (Z.of_nat (length (tokenize line))));
    [lia|].
  rewrite Hr. reflexivity.
Qed.

(** C1 (amended): the dispatch tries the custom, then the built-in, then the
    external strategy and stops at the first one that returns [SHELL_OK]: a
    custom stage returning [SHELL_OK] ends the dispatch; otherwise a built-in
    stage returning [SHELL_OK] ends it; otherwise the result is that of the
    external stage.  In particular, when a registered command's name matches
    argument 0 and its callback returns [SHELL_OK], the command returns
    [SHELL_OK] in the machine the callback leaves: nothing is printed, polled
    or spawned and the job table is as before. *)
Theorem dispatch_stops_at_first_ok (m : Machine World) (line : string) :
  Z.of_nat (length (tokenize line)) < MAX_INPUT_SIZE ->
  exists r, extract_redirects (tokenize line) = Some r /\
    let argc := Z.of_nat (length (tokenize line)) in
    (forall m1,
        shell_execute_custom m argc (tokens r) = Returned SHELL_OK m1 ->
        shell_execute_command m (Some line) = Returned SHELL_OK m1) /\
    (forall e m1 t0 m2,
        shell_execute_custom m argc (tokens r) = Returned e m1 ->
        e <> SHELL_OK ->
        read_slot (tokens r) 0 = Some t0 ->
        shell_execute_builtin m1 t0 = Returned SHELL_OK m2 ->
        shell_execute_command m (Some line) = Returned SHELL_OK m2) /\
    (forall e m1 t0 e2 m2,
        shell_execute_custom m argc (tokens r) = Returned e m1 ->
        e <> SHELL_OK ->
        read_slot (tokens r) 0 = Some t0 ->
        shell_execute_builtin m1 t0 = Returned e2 m2 ->
        e2 <> SHELL_OK ->
        shell_execute_command m (Some line) =
          shell_execute_external m2 (tokens r) (input_file r) (output_file r)
            (append_output r)) /\
    (forall c b',
        custom_lookup (read_slot (tokens r) 0) (custom_commands (ctx m)) =
          Found c ->
        callback c (base (ctx m)) argc (tokens r) = (SHELL_OK, b') ->
        shell_execute_command m (Some line) =
          Returned SHELL_OK (with_ctx (with_base b' (ctx m)) m)).
Proof.
  intros Hlen.
  destruct (shell_execute_command_resolve m line Hlen)
    as (r & Hr & _ & _ & _ & _ & Hcmd).
  exists r. split; [exact Hr|]. cbv zeta. rewrite Hcmd.
  unfold resolve_command. repeat split.
  - intros m1 H1. rewrite H1. reflexivity.
  - intros e m1 t0 m2 H1 He H0 H2. rewrite H1, H0, H2.
    destruct e; congruence.
  - intros e m1 t0 e2 m2 H1 He H0 H2 He2. rewrite H1, H0, H2.
    destruct e; try congruence; destruct e2; congruence.
  - intros c b' Hc Hcb. unfold shell_execute_custom. rewrite Hc, Hcb.
    reflexivity.
Qed.

End Dispatch.

Lemma dispatch_stops_at_first_ok_witness :
  Z.of_nat (length (tokenize "echo2 a b")) < MAX_INPUT_SIZE /\
  shell_execute_command (px := linux) (os := counting_system)
    echo2_machine (Some "echo2 a b") = Returned SHELL_OK echo2_machine.
Proof.
  split; [reflexivity|].
  destruct (dispatch_stops_at_first_ok (px := linux) (os := counting_system)
              echo2_machine "echo2 a b") as (r & Hr & _ & _ & _ & H);
    [reflexivity|].
  vm_compute in Hr. injection Hr as <-.
  exact (H (mkCustomCommand "echo2" ok_callback) (base (ctx echo2_machine))
           eq_refl eq_refl).
Defined.

(** C1 (as stated, refuted): the command [hello] is registered with a callback
    that returns [SHELL_ERROR_EXECUTION_FAILED]; the line [hello] matches it,
    and the dispatch goes on through the built-in stage to the external one,
    which spawns a program [hello] and records a job. *)
Lemma failing_custom_reaches_external :
  custom_lookup (read_slot [Some "hello"; None] 0)
    (custom_commands (ctx hello_machine)) =
    Found (mkCustomCommand "hello" failing_callback) /\
  shell_execute_custom hello_machine 1
    [Some "hello"; None] =
    Returned SHELL_ERROR_EXECUTION_FAILED hello_machine /\
  exists m',
    shell_execute_command (px := linux) (os := counting_system)
      hello_machine (Some "hello") = Returned SHELL_OK m' /\
    trace m' =
      trace hello_machine ++
      [Ev_posix_spawnp (Some "hello") [] (mkSpawnAttr 12 [2; 15]) ["hello"]] /\
    jobs (ctx m') = [mkJob 1000 (Some "hello") true].
Proof.
  split; [reflexivity|]. split; [reflexivity|].
  eexists. split; [vm_compute; reflexivity|]. split; reflexivity.
Qed.

(** ** Redirection *)

Lemma no_redirect_no_append (ts : list string) :
  no_redirect_op ts = true -> existsb (fun t => String.eqb t ">>") ts = false.
Proof.
  induction ts as [|t ts IH]; [reflexivity|].
  cbn [no_redirect_op forallb existsb]. intros H.
  apply andb_prop in H as [Ht Hts]. split_ops.
  rewrite H1. simpl. apply IH. exact Hts.
Qed.

Lemma no_output_no_append (ts : list string) :
  no_output_op ts = true -> existsb (fun t => String.eqb t ">>") ts = false.
Proof.
  induction ts as [|t ts IH]; [reflexivity|].
  cbn [no_output_op forallb existsb]. intros H.
  apply andb_prop in H as [Ht Hts]. split_ops.
  rewrite H0. simpl. apply IH. exact Hts.
Qed.

Lemma read_scanned_operator (pre post : list string) (op : string) :
  is_redirect_op op = true ->
  read_slot (map scanned_slot (pre ++ op :: post) ++ [None]) (length pre) =
  Some None.
Proof.
  intros Hop. unfold read_slot.
  rewrite map_app, <- app_assoc.
  rewrite lookup_app_r by (rewrite length_map; lia).
  rewrite length_map, Nat.sub_diag. cbn. unfold scanned_slot.
  rewrite Hop. reflexivity.
Qed.

Lemma before_redirect_prefix_of (pre post : list string) (op : string) :
  is_redirect_op op = true ->
  before_redirect (pre ++ op :: post) `prefix_of` pre.
Proof.
  intros Hop. induction pre as [|t pre IH].
  - cbn [app before_redirect]. rewrite Hop. reflexivity.
  - cbn [app before_redirect]. destruct (is_redirect_op t).
    + apply prefix_nil.
    + apply prefix_cons. exact IH.
Qed.

Section Redirection.

Context {px : Posix} {World : Type} {os : System World}.

(** A line whose first token is a program name (no operator, no registered
    name, no built-in) reaches the external executor, and the spawn carries
    the paths and the flag of the scanned record. *)
Lemma external_stage_uses_record (m : Machine World) (line : string)
  (r : Redirect) (t0 : string) (rest : list string) :
  Z.of_nat (length (tokenize line)) < MAX_INPUT_SIZE ->
  extract_redirects (tokenize line) = Some r ->
  tokenize line = t0 :: rest ->
  is_redirect_op t0 = false ->
  is_builtin_name t0 = false ->
  custom_lookup (Some (Some t0)) (custom_commands (ctx m)) = NotFound ->
  exists e m',
    shell_execute_command m (Some line) = Returned e m' /\
    trace m' =
      trace m ++
      [Ev_posix_spawnp (Some t0)
         (file_actions (input_file r) (output_file r) (append_output r))
         (spawn_attr m) (before_redirect (tokenize line))].
Proof.
  intros Hlen Hr Htok Hop Hbuiltin Hmiss.
  destruct (shell_execute_command_resolve m line Hlen)
    as (r' & Hr' & Ht & _ & _ & _ & Hcmd).
  rewrite Hr in Hr'. injection Hr' as <-.
  rewrite Hcmd. clear Hcmd.
  assert (read_slot (tokens r) 0 = Some (Some t0)) as H0.
  { rewrite Ht, Htok. cbn [map app]. unfold scanned_slot at 1. rewrite Hop.
    reflexivity. }
  assert (c_argv (tokens r) = Some (before_redirect (tokenize line))) as Hargs
    by (rewrite Ht; apply c_argv_scanned).
  unfold resolve_command, shell_execute_custom. rewrite H0, Hmiss.
  unfold is_builtin_name in Hbuiltin.
  apply orb_false_elim in Hbuiltin as [Hb Hj].
  apply orb_false_elim in Hb as [He Hh].
  unfold shell_execute_builtin. rewrite He, Hh, Hj.
  unfold shell_execute_external. cbn [ctx with_ctx world trace].
  rewrite H0, Hargs.
  change (signal_mask
            (base (fail_with SHELL_ERROR_COMMAND_NOT_FOUND
                     (fail_with SHELL_ERROR_COMMAND_NOT_FOUND (ctx m)))))
    with (signal_mask (base (ctx m))).
  fold (spawn_attr m).
  destruct (posix_spawnp _ _ _ _ _) as [[status child] w'].
  destruct (status =? 0).
  - unfold shell_add_job. cbn [ctx world].
    destruct (MAX_JOBS <=? _).
    + eexists _, _. split; reflexivity.
    + destruct (strdup w' t0) as [d w2]. eexists _, _. split; reflexivity.
  - eexists _, _. split; reflexivity.
Qed.

(** C2 (amended): when a redirection operator, wherever it stands on the
    line, is followed by a filename token, [shell_execute_command] overwrites
    the operator's slot with [NULL] and records the filename as the input
    path (for [<]) or the output path (for [>] and [>>]) unless a later
    operator of the same direction replaces it; the append flag is true
    exactly when some [>>] occurs on the line, hence true for [>>], and
    false for [>] on a line without [>>].  The [NULL]-terminated argument
    vector handed to the strategies is the tokens before the first
    redirection operator of the line: all of them stand before the operator,
    so it holds neither the operator nor the filename.  When the line goes
    to the external executor, the spawn is made with that vector and with
    the file actions of the recorded paths. *)
Theorem redirect_operator_ends_arguments (m : Machine World) (line : string)
  (pre post : list string) (op f : string) :
  tokenize line = pre ++ op :: f :: post ->
  Z.of_nat (length (tokenize line)) < MAX_INPUT_SIZE ->
  is_redirect_op op = true ->
  exists r,
    extract_redirects (tokenize line) = Some r /\
    shell_execute_command m (Some line) =
      resolve_command m (Z.of_nat (length (tokenize line))) r /\
    read_slot (tokens r) (length pre) = Some None /\
    c_argv (tokens r) = Some (before_redirect (tokenize line)) /\
    before_redirect (tokenize line) `prefix_of` pre /\
    (no_redirect_op pre = true -> c_argv (tokens r) = Some pre) /\
    (is_input_op op = true -> no_input_op (f :: post) = true ->
     input_file r = Some f) /\
    (is_output_op op = true -> no_output_op (f :: post) = true ->
     output_file r = Some f) /\
    append_output r = existsb (fun t => String.eqb t ">>") (tokenize line) /\
    (String.eqb op ">>" = true -> append_output r = true) /\
    (is_output_op op = true -> no_output_op (f :: post) = true ->
     no_redirect_op pre = true ->
     append_output r = String.eqb op ">>") /\
    (forall (t0 : string) (rest : list string),
        tokenize line = t0 :: rest ->
        is_redirect_op t0 = false ->
        is_builtin_name t0 = false ->
        custom_lookup (Some (Some t0)) (custom_commands (ctx m)) = NotFound ->
        exists e m',
          shell_execute_command m (Some line) = Returned e m' /\
          trace m' =
            trace m ++
            [Ev_posix_spawnp (Some t0)
               (file_actions (input_file r) (output_file r) (append_output r))
               (spawn_attr m) (before_redirect (tokenize line))]).
Proof.
  intros Htok Hlen Hop.
  destruct (shell_execute_command_resolve m line Hlen)
    as (r & Hr & Ht & Hi & Ho & Ha & Hcmd).
  exists r. split; [exact Hr|]. split; [exact Hcmd|].
  assert (append_output r =
          existsb (fun t => String.eqb t ">>") (tokenize line)) as Happ.
  { rewrite Ha. unfold scan_append. rewrite scan_files_append. reflexivity. }
  split; [rewrite Ht, Htok; apply read_scanned_operator; exact Hop|].
  split; [rewrite Ht; apply c_argv_scanned|].
  split; [rewrite Htok; apply before_redirect_prefix_of; exact Hop|].
  split.
  { intros Hpre. rewrite Ht, c_argv_scanned, Htok. f_equal.
    apply before_redirect_prefix; assumption. }
  split.
  { intros Hin Hpost. rewrite Hi, Htok. unfold scan_input.
    exact (scan_files_last_input pre (f :: post) op None None false Hin Hpost). }
  split.
  { intros Hout Hpost. rewrite Ho, Htok. unfold scan_output.
    exact (scan_files_last_output pre (f :: post) op None None false
             Hout Hpost). }
  split; [exact Happ|].
  split.
  { intros Hop2. rewrite Happ, Htok, existsb_app. cbn [existsb].
    rewrite Hop2, orb_true_r. reflexivity. }
  split.
  { intros Hout Hpost Hpre. rewrite Happ, Htok, existsb_app.
    cbn [existsb orb].
    change (existsb (fun t => String.eqb t ">>") (f :: post))
      with (String.eqb f ">>" || existsb (fun t => String.eqb t ">>") post)%bool.
    rewrite (no_redirect_no_append pre Hpre).
    pose proof (no_output_no_append (f :: post) Hpost) as Hn.
    cbn [existsb] in Hn. rewrite Hn, orb_false_r. reflexivity. }
  intros t0 rest Ht0 Hnop Hnb Hmiss.
  exact (external_stage_uses_record m line r t0 rest Hlen Hr Ht0 Hnop Hnb
           Hmiss).
Qed.

(** C10: with several output redirections on a line, the output path is the
    slot that follows the last [>] or [>>] of the left-to-right scan, and the
    append flag is true exactly when some [>>] occurs on the line: a later
    [>] does not reset it.  When the line goes to the external executor, the
    child's standard output is opened on that path, with
    [O_WRONLY | O_CREAT | O_APPEND] if some [>>] occurs on the line and
    [O_WRONLY | O_CREAT | O_TRUNC] otherwise. *)
Theorem last_output_redirection_wins (m : Machine World) (line : string)
  (pre post : list string) (op : string) :
  tokenize line = pre ++ op :: post ->
  Z.of_nat (length (tokenize line)) < MAX_INPUT_SIZE ->
  is_output_op op = true ->
  no_output_op post = true ->
  exists r,
    extract_redirects (tokenize line) = Some r /\
    shell_execute_command m (Some line) =
      resolve_command m (Z.of_nat (length (tokenize line))) r /\
    output_file r = head post /\
    append_output r = existsb (fun t => String.eqb t ">>") (tokenize line) /\
    (forall (t0 : string) (rest : list string),
        tokenize line = t0 :: rest ->
        is_redirect_op t0 = false ->
        is_builtin_name t0 = false ->
        custom_lookup (Some (Some t0)) (custom_commands (ctx m)) = NotFound ->
        exists e m',
          shell_execute_command m (Some line) = Returned e m' /\
          trace m' =
            trace m ++
            [Ev_posix_spawnp (Some t0)
               (input_actions (input_file r) ++
                match head post with
                | Some f =>
                    [mkAddOpen STDOUT_FILENO f
                       (Z.lor (Z.lor O_WRONLY O_CREAT)
                          (if existsb (fun t => String.eqb t ">>")
                                (tokenize line)
                           then O_APPEND else O_TRUNC)) 420]
                | None => []
                end)
               (spawn_attr m) (before_redirect (tokenize line))]).
Proof.
  intros Htok Hlen Hop Hpost.
  destruct (shell_execute_command_resolve m line Hlen)
    as (r & Hr & Ht & Hi & Ho & Ha & Hcmd).
  exists r. split; [exact Hr|]. split; [exact Hcmd|].
  assert (output_file r = head post) as Hout.
  { rewrite Ho, Htok. unfold scan_output.
    exact (scan_files_last_output pre post op None None false Hop Hpost). }
  assert (append_output r =
          existsb (fun t => String.eqb t ">>") (tokenize line)) as Happ.
  { rewrite Ha. unfold scan_append. rewrite scan_files_append. reflexivity. }
  split; [exact Hout|]. split; [exact Happ|].
  intros t0 rest Ht0 Hnop Hnb Hmiss.
  destruct (external_stage_uses_record m line r t0 rest Hlen Hr Ht0 Hnop Hnb
              Hmiss) as (e & m' & Hrun & Htrace).
  exists e, m'. split; [exact Hrun|]. rewrite Htrace.
  unfold file_actions, output_actions, output_flags. rewrite Hout, Happ.
  reflexivity.
Qed.

(** C4 (amended): when the last token of a line that fits the token array is
    a redirection operator, the slot the scan reads after it is the
    terminator slot [tokens[token_count]], which lies inside the array; the
    scan completes (every slot access of the embedding is a checked lookup
    and none of them fails) and no error is raised: the dispatch goes on.
    The operator is not ignored: the path of its direction ends up unset,
    whatever an earlier operator had stored there, and the append flag is
    true exactly when some [>>] occurs on the line, the trailing one included.
    When the line goes to the external executor, no file is opened for that
    direction. *)
Theorem trailing_operator_reads_terminator (m : Machine World) (line : string)
  (pre : list string) (op : string) :
  tokenize line = pre ++ [op] ->
  Z.of_nat (length (tokenize line)) < MAX_INPUT_SIZE ->
  is_redirect_op op = true ->
  Z.of_nat (length (token_array (tokenize line))) <= MAX_INPUT_SIZE /\
  read_slot (token_array (tokenize line)) (length pre + 1) = Some None /\
  exists r,
    extract_redirects (tokenize line) = Some r /\
    shell_execute_command m (Some line) =
      resolve_command m (Z.of_nat (length (tokenize line))) r /\
    (is_input_op op = true ->
     input_file r = None /\ input_actions (input_file r) = []) /\
    (is_output_op op = true ->
     output_file r = None /\
     output_actions (output_file r) (append_output r) = []) /\
    append_output r = existsb (fun t => String.eqb t ">>") (tokenize line) /\
    (String.eqb op ">>" = true -> append_output r = true) /\
    (forall (t0 : string) (rest : list string),
        tokenize line = t0 :: rest ->
        is_redirect_op t0 = false ->
        is_builtin_name t0 = false ->
        custom_lookup (Some (Some t0)) (custom_commands (ctx m)) = NotFound ->
        exists e m',
          shell_execute_command m (Some line) = Returned e m' /\
          trace m' =
            trace m ++
            [Ev_posix_spawnp (Some t0)
               ((if is_input_op op then [] else input_actions (input_file r)) ++
                (if is_output_op op then []
                 else output_actions (output_file r) (append_output r)))
               (spawn_attr m) (before_redirect (tokenize line))]).
Proof.
  intros Htok Hlen Hop.
  split.
  { unfold token_array. rewrite length_app, length_map. simpl. lia. }
  split.
  { rewrite Htok. unfold token_array, read_slot.
    rewrite lookup_app_r by (rewrite length_map, length_app; simpl; lia).
    rewrite length_map, length_app. simpl.
    replace (length pre + 1 - (length pre + 1))%nat with 0%nat by lia.
    reflexivity. }
  destruct (shell_execute_command_resolve m line Hlen)
    as (r & Hr & Ht & Hi & Ho & Ha & Hcmd).
  exists r. split; [exact Hr|]. split; [exact Hcmd|].
  assert (is_input_op op = true -> input_file r = None) as Hin.
  { intros H. rewrite Hi, Htok.
    exact (scan_files_last_input pre [] op None None false H eq_refl). }
  assert (is_output_op op = true -> output_file r = None) as Hout.
  { intros H. rewrite Ho, Htok.
    exact (scan_files_last_output pre [] op None None false H eq_refl). }
  assert (append_output r =
          existsb (fun t => String.eqb t ">>") (tokenize line)) as Happ.
  { rewrite Ha. unfold scan_append. rewrite scan_files_append. reflexivity. }
  split; [intros H; rewrite (Hin H); split; reflexivity|].
  split; [intros H; rewrite (Hout H); split; reflexivity|].
  split; [exact Happ|].
  split.
  { intros Hop2. rewrite Happ, Htok, existsb_app. cbn [existsb].
    rewrite Hop2, orb_true_r. reflexivity. }
  intros t0 rest Ht0 Hnop Hnb Hmiss.
  destruct (external_stage_uses_record m line r t0 rest Hlen Hr Ht0 Hnop Hnb
              Hmiss) as (e & m' & Hrun & Htrace).
  exists e, m'. split; [exact Hrun|]. rewrite Htrace. unfold file_actions.
  destruct (is_input_op op) eqn:E1; [rewrite (Hin eq_refl)|];
    (destruct (is_output_op op) eqn:E2; [rewrite (Hout eq_refl)|]);
    reflexivity.
Qed.

End Redirection.

Lemma redirect_operator_ends_arguments_witness :
  tokenize "cat < in.txt > out.txt" =
    ["cat"; "<"; "in.txt"] ++ ">" :: "out.txt" :: [] /\
  Z.of_nat (length (tokenize "cat < in.txt > out.txt")) < MAX_INPUT_SIZE /\
  is_redirect_op ">" = true /\
  exists r,
    extract_redirects (tokenize "cat < in.txt > out.txt") = Some r /\
    c_argv (tokens r) = Some ["cat"] /\
    input_file r = Some "in.txt" /\
    output_file r = Some "out.txt" /\
    append_output r = false /\
    exists e m',
      shell_execute_command (px := linux) (os := counting_system) fresh
        (Some "cat < in.txt > out.txt") = Returned e m' /\
      trace m' =
        trace fresh ++
        [Ev_posix_spawnp (Some "cat")
           [mkAddOpen 0 "in.txt" 0 0; mkAddOpen 1 "out.txt" 577 420]
           (mkSpawnAttr 12 [2; 15]) ["cat"]].
Proof.
  repeat (split; [reflexivity|]).
  destruct (redirect_operator_ends_arguments (px := linux)
              (os := counting_system) fresh "cat < in.txt > out.txt"
              ["cat"; "<"; "in.txt"] [] ">" "out.txt" eq_refl eq_refl eq_refl)
    as (r & Hr & _ & _ & Hargv & _ & _ & _ & Hout & Happ & _ & _ & Hext).
  destruct (redirect_operator_ends_arguments (px := linux)
              (os := counting_system) fresh "cat < in.txt > out.txt"
              ["cat"] [">"; "out.txt"] "<" "in.txt" eq_refl eq_refl eq_refl)
    as (r' & Hr' & _ & _ & _ & _ & _ & Hin & _).
  rewrite Hr in Hr'. injection Hr' as <-.
  exists r. split; [exact Hr|]. split; [exact Hargv|].
  split; [exact (Hin eq_refl eq_refl)|].
  split; [exact (Hout eq_refl eq_refl)|]. split; [exact Happ|].
  destruct (Hext "cat" ["<"; "in.txt"; ">"; "out.txt"] eq_refl eq_refl eq_refl
              eq_refl) as (e & m' & Hrun & Htrace).
  exists e, m'. split; [exact Hrun|]. rewrite Htrace.
  rewrite (Hin eq_refl eq_refl), (Hout eq_refl eq_refl), Happ. reflexivity.
Defined.

(** C2 (as stated, refuted): on [ls > out.txt -l] the specification's argument
    list is [ls -l], while the external strategy is handed [ls] alone; a
    custom command run as [show > out.txt -l] is handed [argc = 4] with the
    filename still in slot 2 of its arguments; on [ls >> a > b] the path [b]
    of the [>] is recorded with the append flag true; and on
    [sort < a < b] the filename [a] of the first [<] is not the input path. *)
Lemma filename_stays_in_arguments :
  tokenize "ls > out.txt -l" = ["ls"; ">"; "out.txt"; "-l"] /\
  spec_filtered_arguments ["ls"; ">"; "out.txt"; "-l"] = ["ls"; "-l"] /\
  extract_redirects ["ls"; ">"; "out.txt"; "-l"] =
    Some (mkRedirect [Some "ls"; None; Some "out.txt"; Some "-l"; None]
            None (Some "out.txt") false) /\
  (exists m',
      shell_execute_command (px := linux) (os := counting_system) fresh
        (Some "ls > out.txt -l") = Returned SHELL_OK m' /\
      trace m' =
        trace fresh ++
        [Ev_posix_spawnp (Some "ls") [mkAddOpen 1 "out.txt" 577 420]
           (mkSpawnAttr 12 [2; 15]) ["ls"]]) /\
  (exists m',
      shell_execute_command (px := linux) (os := counting_system)
        (register "show" noting_callback fresh) (Some "show > out.txt -l") =
        Returned SHELL_OK m' /\
      child_pid (base (ctx m')) = 4 /\
      history (base (ctx m')) = ["show"; "out.txt"; "-l"]) /\
  extract_redirects (tokenize "ls >> a > b") =
    Some (mkRedirect [Some "ls"; None; Some "a"; None; Some "b"; None]
            None (Some "b") true) /\
  extract_redirects (tokenize "sort < a < b") =
    Some (mkRedirect [Some "sort"; None; Some "a"; None; Some "b"; None]
            (Some "b") None false).
Proof.
  repeat (split; [reflexivity|]).
  split; [|split; [|split; reflexivity]];
    eexists; (split; [vm_compute; reflexivity|]); repeat split.
Qed.

Lemma last_output_redirection_wins_witness :
  tokenize "ls >> a > b" = ["ls"; ">>"; "a"] ++ ">" :: ["b"] /\
  Z.of_nat (length (tokenize "ls >> a > b")) < MAX_INPUT_SIZE /\
  is_output_op ">" = true /\
  no_output_op ["b"] = true /\
  exists r,
    extract_redirects (tokenize "ls >> a > b") = Some r /\
    output_file r = Some "b" /\
    append_output r = true /\
    output_actions (px := linux) (output_file r) (append_output r) =
      [mkAddOpen 1 "b" 1089 420] /\
    exists e m',
      shell_execute_command (px := linux) (os := counting_system) fresh
        (Some "ls >> a > b") = Returned e m' /\
      trace m' =
        trace fresh ++
        [Ev_posix_spawnp (Some "ls") [mkAddOpen 1 "b" 1089 420]
           (mkSpawnAttr 12 [2; 15]) ["ls"]].
Proof.
  repeat (split; [reflexivity|]).
  destruct (last_output_redirection_wins (px := linux)
              (os := counting_system) fresh "ls >> a > b" ["ls"; ">>"; "a"]
              ["b"] ">" eq_refl eq_refl eq_refl eq_refl)
    as (r & Hr & _ & Hout & Happ & Hext).
  exists r. split; [exact Hr|]. split; [exact Hout|]. split; [exact Happ|].
  split; [rewrite Hout, Happ; reflexivity|].
  destruct (Hext "ls" [">>"; "a"; ">"; "b"] eq_refl eq_refl eq_refl eq_refl)
    as (e & m' & Hrun & Htrace).
  exists e, m'. split; [exact Hrun|]. rewrite Htrace.
  vm_compute in Hr. injection Hr as <-. reflexivity.
Defined.

Lemma trailing_operator_reads_terminator_witness :
  tokenize "ls > a >>" = ["ls"; ">"; "a"] ++ [">>"] /\
  Z.of_nat (length (tokenize "ls > a >>")) < MAX_INPUT_SIZE /\
  is_redirect_op ">>" = true /\
  exists r,
    extract_redirects (tokenize "ls > a >>") = Some r /\
    output_file r = None /\
    append_output r = true /\
    exists e m',
      shell_execute_command (px := linux) (os := counting_system) fresh
        (Some "ls > a >>") = Returned e m' /\
      trace m' =
        trace fresh ++
        [Ev_posix_spawnp (Some "ls") [] (mkSpawnAttr 12 [2; 15]) ["ls"]].
Proof.
  repeat (split; [reflexivity|]).
  destruct (trailing_operator_reads_terminator (px := linux)
              (os := counting_system) fresh "ls > a >>" ["ls"; ">"; "a"] ">>"
              eq_refl eq_refl eq_refl)
    as (_ & _ & r & Hr & _ & _ & Hout & _ & Happ & Hext).
  exists r. split; [exact Hr|]. split; [exact (proj1 (Hout eq_refl))|].
  split; [exact (Happ eq_refl)|].
  destruct (Hext "ls" [">"; "a"; ">>"] eq_refl eq_refl eq_refl eq_refl)
    as (e & m' & Hrun & Htrace).
  exists e, m'. split; [exact Hrun|]. rewrite Htrace.
  vm_compute in Hr. injection Hr as <-. reflexivity.
Defined.

(** C4 (as stated, refuted): on [ls > a >>] no error is raised and the
    trailing [>>] is not a no-op: without it the output path is [a] and the
    append flag false, with it the path is unset and the flag true, and the
    command is spawned with its output not redirected.  And a line of 1024
    tokens that ends in [>] does not fit the array: the slot read after the
    operator is [tokens[token_count]] with [token_count = MAX_INPUT_SIZE],
    one past the last slot of the array, and the behaviour is undefined. *)
Lemma trailing_operator_is_not_a_noop :
  extract_redirects (tokenize "ls > a") =
    Some (mkRedirect [Some "ls"; None; Some "a"; None] None (Some "a") false) /\
  extract_redirects (tokenize "ls > a >>") =
    Some (mkRedirect [Some "ls"; None; Some "a"; None; None] None None true) /\
  (exists m',
      shell_execute_command (px := linux) (os := counting_system) fresh
        (Some "ls > a") = Returned SHELL_OK m' /\
      trace m' =
        trace fresh ++
        [Ev_posix_spawnp (Some "ls") [mkAddOpen 1 "a" 577 420]
           (mkSpawnAttr 12 [2; 15]) ["ls"]]) /\
  (exists m',
      shell_execute_command (px := linux) (os := counting_system) fresh
        (Some "ls > a >>") = Returned SHELL_OK m' /\
      trace m' =
        trace fresh ++
        [Ev_posix_spawnp (Some "ls") [] (mkSpawnAttr 12 [2; 15]) ["ls"]]) /\
  tokenize (join_tokens overlong_tokens) = overlong_tokens /\
  last overlong_tokens = Some ">" /\
  Z.of_nat (length overlong_tokens) = MAX_INPUT_SIZE /\
  Z.of_nat (length (token_array overlong_tokens)) = MAX_INPUT_SIZE + 1 /\
  shell_execute_command (px := linux) (os := counting_system) fresh
    (Some (join_tokens overlong_tokens)) = Undefined.
Proof.
  split; [reflexivity|]. split; [reflexivity|].
  split; [eexists; split; [vm_compute; reflexivity|reflexivity]|].
  split; [eexists; split; [vm_compute; reflexivity|reflexivity]|].
  split; [vm_compute; reflexivity|].
  split; [vm_compute; reflexivity|].
  split; [vm_compute; reflexivity|].
  split; vm_compute; reflexivity.
Qed.

(** ** The job table *)

Section JobTable.

Context {px : Posix} {World : Type} {os : System World}.

Lemma update_jobs_from_length (js : list Job) (i0 : Z) (w : World) :
  length (fst (fst (update_jobs_from i0 js w))) = length js.
Proof.
  revert i0 w. induction js as [|j js IH]; intros i0 w; [reflexivity|].
  cbn [update_jobs_from].
  destruct (running j).
  - destruct (waitpid w (pid j)) as [res w1].
    specialize (IH (i0 + 1) w1).
    destruct (update_jobs_from (i0 + 1) js w1) as [[js' w2] evs].
    destruct (0 <? res); simpl in *; congruence.
  - specialize (IH (i0 + 1) w).
    destruct (update_jobs_from (i0 + 1) js w) as [[js' w2] evs].
    simpl in *. congruence.
Qed.

Lemma shell_update_jobs_job_count (m : Machine World) :
  job_count (ctx (snd (shell_update_jobs m))) = job_count (ctx m).
Proof.
  unfold shell_update_jobs, job_count.
  pose proof (update_jobs_from_length (jobs (ctx m)) 0 (world m)) as H.
  destruct (update_jobs_from 0 (jobs (ctx m)) (world m)) as [[js w] evs].
  simpl in *. congruence.
Qed.

Lemma shell_add_job_bounded (m : Machine World) (p : Z) (c : option string) :
  job_count (ctx m) <= MAX_JOBS ->
  job_count (ctx (snd (shell_add_job m p c))) <= MAX_JOBS.
Proof.
  intros H. unfold shell_add_job. destruct c as [c|]; [|exact H].
  destruct (Z.leb_spec MAX_JOBS (job_count (ctx m))); [exact H|].
  destruct (strdup (world m) c) as [d w']. unfold job_count in *. simpl.
  rewrite length_app. simpl. lia.
Qed.

Lemma shell_execute_custom_jobs (m m' : Machine World) (argc : Z)
  (argv : list (option string)) (e : ShellError) :
  shell_execute_custom m argc argv = Returned e m' ->
  jobs (ctx m') = jobs (ctx m).
Proof.
  unfold shell_execute_custom.
  destruct (custom_lookup _ _) as [c| |]; [| |discriminate].
  - destruct (callback c _ _ _) as [e' b']. intros [= _ <-]. reflexivity.
  - intros [= _ <-]. reflexivity.
Qed.

Lemma shell_execute_builtin_bounded (m m' : Machine World) (c : option string)
  (e : ShellError) :
  shell_execute_builtin m c = Returned e m' ->
  job_count (ctx m) <= MAX_JOBS -> job_count (ctx m') <= MAX_JOBS.
Proof.
  unfold shell_execute_builtin. destruct c as [c|]; [|intros [= _ <-]; auto].
  destruct (String.eqb c "exit"); [discriminate|].
  destruct (String.eqb c "history"); [intros [= _ <-]; auto|].
  destruct (String.eqb c "jobs"); [|intros [= _ <-]; auto].
  pose proof (shell_update_jobs_job_count m) as Hc.
  destruct (shell_update_jobs m) as [e1 m1]. intros [= _ <-].
  simpl in *. unfold job_count in *. simpl. lia.
Qed.

Lemma shell_execute_external_bounded (m m' : Machine World)
  (argv : list (option string)) (i o : option string) (a : bool)
  (e : ShellError) :
  shell_execute_external m argv i o a = Returned e m' ->
  job_count (ctx m) <= MAX_JOBS -> job_count (ctx m') <= MAX_JOBS.
Proof.
  unfold shell_execute_external.
  destruct (read_slot argv 0) as [file|]; [|discriminate].
  destruct (c_argv argv) as [args|]; [|discriminate].
  destruct (posix_spawnp _ _ _ _ _) as [[status child] w'].
  destruct (status =? 0).
  - match goal with |- context [shell_add_job ?m1 child file] =>
      pose proof (shell_add_job_bounded m1 child file) as Hb;
      destruct (shell_add_job m1 child file) as [e2 m2] end.
    intros [= _ <-] H. apply Hb. exact H.
  - intros [= _ <-] H. exact H.
Qed.

Lemma resolve_command_bounded (m m' : Machine World) (argc : Z) (r : Redirect)
  (e : ShellError) :
  resolve_command m argc r = Returned e m' ->
  job_count (ctx m) <= MAX_JOBS -> job_count (ctx m') <= MAX_JOBS.
Proof.
  unfold resolve_command. intros H Hm.
  destruct (shell_execute_custom m argc (tokens r)) as [e1 m1| |] eqn:E1;
    [|discriminate|discriminate].
  assert (job_count (ctx m1) <= MAX_JOBS) as Hm1.
  { unfold job_count in *.
    rewrite (shell_execute_custom_jobs _ _ _ _ _ E1). exact Hm. }
  assert (forall t0 e2 m2, shell_execute_builtin m1 t0 = Returned e2 m2 ->
            job_count (ctx m2) <= MAX_JOBS) as Hb.
  { intros t0 e2 m2 E2. exact (shell_execute_builtin_bounded _ _ _ _ E2 Hm1). }
  assert (forall m2, job_count (ctx m2) <= MAX_JOBS ->
            shell_execute_external m2 (tokens r) (input_file r)
              (output_file r) (append_output r) = Returned e m' ->
            job_count (ctx m') <= MAX_JOBS) as Hx.
  { intros m2 Hm2 E3. exact (shell_execute_external_bounded _ _ _ _ _ _ _ E3 Hm2). }
  destruct e1; try (injection H as _ <-; exact Hm1);
    (destruct (read_slot (tokens r) 0) as [t0|]; [|discriminate];
     destruct (shell_execute_builtin m1 t0) as [e2 m2| |] eqn:E2;
       [|discriminate|discriminate];
     specialize (Hb _ _ _ E2);
     destruct e2; try (injection H as _ <-; exact Hb);
       exact (Hx _ Hb H)).
Qed.

Lemma shell_execute_command_bounded (m m' : Machine World)
  (line : option string) (e : ShellError) :
  shell_execute_command m line = Returned e m' ->
  job_count (ctx m) <= MAX_JOBS -> job_count (ctx m') <= MAX_JOBS.
Proof.
  unfold shell_execute_command.
  destruct line as [line|]; [|intros [= _ <-]; auto].
  destruct (MAX_INPUT_SIZE <=? _); [discriminate|].
  destruct (extract_redirects _) as [r|]; [|discriminate].
  apply resolve_command_bounded.
Qed.

Lemma reachable_job_count (m : Machine World) :
  reachable m -> job_count (ctx m) <= MAX_JOBS.
Proof.
  induction 1 as [w p i|m n cb Hm IH|m p c Hm IH|m Hm IH
                 |m argc argv e m' Hm IH E|m c e m' Hm IH E
                 |m argv i o a e m' Hm IH E|m line e m' Hm IH E].
  - unfold shell_init. destruct (strdup w _) as [q w1].
    destruct (sigprocmask w1 _) as [r w2].
    destruct (r =? -1); unfold job_count, MAX_JOBS; simpl; lia.
  - unfold shell_register_command.
    destruct n as [n|]; [|exact IH]. destruct cb as [cb|]; [|exact IH].
    destruct (MAX_CUSTOM_COMMANDS <=? _); [exact IH|].
    destruct (strdup (world m) n) as [[d|] w']; exact IH.
  - apply shell_add_job_bounded. exact IH.
  - rewrite shell_update_jobs_job_count. exact IH.
  - unfold job_count in *.
    rewrite (shell_execute_custom_jobs _ _ _ _ _ E). exact IH.
  - exact (shell_execute_builtin_bounded _ _ _ _ E IH).
  - exact (shell_execute_external_bounded _ _ _ _ _ _ _ E IH).
  - exact (shell_execute_command_bounded _ _ _ _ E IH).
Qed.

Lemma reachable_add_jobs (n : nat) (p : Z) (c : string) (m : Machine World) :
  reachable m -> reachable (add_jobs n p c m).
Proof.
  revert p m. induction n as [|n IH]; intros p m Hm; [exact Hm|].
  cbn [add_jobs]. apply IH. apply reach_add_job. exact Hm.
Qed.

(** C5: in every reachable session state the job table holds at most
    [MAX_JOBS] entries, and [shell_add_job] on a table that has reached
    [MAX_JOBS] returns [SHELL_ERROR_JOB_CONTROL_FULL] and leaves the count,
    every job entry, the world and the trace as they were: nothing is
    dropped or evicted. *)
Theorem job_table_never_exceeds_capacity (m : Machine World) :
  reachable m ->
  job_count (ctx m) <= MAX_JOBS /\
  forall (p : Z) (c : string),
    MAX_JOBS <= job_count (ctx m) ->
    exists m',
      shell_add_job m p (Some c) = (SHELL_ERROR_JOB_CONTROL_FULL, m') /\
      jobs (ctx m') = jobs (ctx m) /\
      job_count (ctx m') = job_count (ctx m) /\
      last_error (base (ctx m')) = SHELL_ERROR_JOB_CONTROL_FULL /\
      world m' = world m /\ trace m' = trace m.
Proof.
  intros Hm. split; [exact (reachable_job_count m Hm)|].
  intros p c Hfull. unfold shell_add_job.
  destruct (Z.leb_spec MAX_JOBS (job_count (ctx m))); [|lia].
  eexists. split; [reflexivity|]. repeat split.
Qed.

End JobTable.

Lemma job_table_never_exceeds_capacity_witness :
  reachable (px := linux) (os := counting_system) full_machine /\
  job_count (ctx full_machine) = MAX_JOBS /\
  exists m',
    shell_add_job (os := counting_system) full_machine 7 (Some "one-more") =
      (SHELL_ERROR_JOB_CONTROL_FULL, m') /\
    jobs (ctx m') = jobs (ctx full_machine).
Proof.
  assert (reachable (px := linux) (os := counting_system) full_machine) as Hr.
  { apply reachable_add_jobs. apply reach_init. }
  split; [exact Hr|]. split; [vm_compute; reflexivity|].
  destruct (job_table_never_exceeds_capacity full_machine Hr) as [_ H].
  destruct (H 7 "one-more") as (m' & Hadd & Hjobs & _).
  { vm_compute. discriminate. }
  exists m'. split; [exact Hadd | exact Hjobs].
Defined.

(** ** Polling *)

Section Polling.

Context {px : Posix} {World : Type} {os : System World}.

Lemma update_jobs_from_checks (js : list Job) (i0 : Z) (w : World) :
  status_checks (snd (update_jobs_from i0 js w)) = running_pids js.
Proof.
  revert i0 w. induction js as [|j js IH]; intros i0 w; [reflexivity|].
  cbn [update_jobs_from]. unfold running_pids. cbn [List.filter].
  destruct (running j).
  - destruct (waitpid w (pid j)) as [res w1].
    specialize (IH (i0 + 1) w1).
    destruct (update_jobs_from (i0 + 1) js w1) as [[js' w2] evs].
    destruct (0 <? res); simpl in *; rewrite IH; reflexivity.
  - specialize (IH (i0 + 1) w).
    destruct (update_jobs_from (i0 + 1) js w) as [[js' w2] evs].
    simpl in *. exact IH.
Qed.

Lemma update_jobs_from_keeps_settled (js : list Job) (i0 : Z) (w : World)
  (k : nat) (j : Job) :
  js !! k = Some j -> running j = false ->
  fst (fst (update_jobs_from i0 js w)) !! k = Some j.
Proof.
  revert i0 w k. induction js as [|j0 js IH]; intros i0 w k Hk Hj;
    [discriminate|].
  cbn [update_jobs_from].
  destruct k as [|k].
  - injection Hk as ->. rewrite Hj.
    destruct (update_jobs_from (i0 + 1) js w) as [[js' w2] evs]. reflexivity.
  - change ((j0 :: js) !! S k) with (js !! k) in Hk.
    destruct (running j0).
    + destruct (waitpid w (pid j0)) as [res w1].
      specialize (IH (i0 + 1) w1 k Hk Hj).
      destruct (update_jobs_from (i0 + 1) js w1) as [[js' w2] evs].
      destruct (0 <? res); exact IH.
    + specialize (IH (i0 + 1) w k Hk Hj).
      destruct (update_jobs_from (i0 + 1) js w) as [[js' w2] evs].
      exact IH.
Qed.

Lemma update_jobs_from_settled (js : list Job) (i0 : Z) (w : World) :
  all_settled js = true -> update_jobs_from i0 js w = (js, w, []).
Proof.
  revert i0. induction js as [|j js IH]; intros i0 H; [reflexivity|].
  cbn [all_settled forallb] in H. apply andb_prop in H as [Hj Hjs].
  apply negb_true_iff in Hj. cbn [update_jobs_from].
  rewrite Hj, (IH (i0 + 1) Hjs). reflexivity.
Qed.

Lemma shell_update_jobs_settled (m : Machine World) :
  all_settled (jobs (ctx m)) = true -> shell_update_jobs m = (SHELL_OK, m).
Proof.
  intros H. unfold shell_update_jobs.
  rewrite (update_jobs_from_settled _ 0 (world m) H).
  destruct m as [[b cs js al] w tr]. unfold with_jobs. simpl.
  rewrite app_nil_r. reflexivity.
Qed.

Lemma shell_update_jobs_keeps_settled (m : Machine World) (k : nat) (j : Job) :
  jobs (ctx m) !! k = Some j -> running j = false ->
  jobs (ctx (snd (shell_update_jobs m))) !! k = Some j.
Proof.
  intros Hk Hj. unfold shell_update_jobs.
  pose proof (update_jobs_from_keeps_settled _ 0 (world m) k j Hk Hj) as H.
  destruct (update_jobs_from 0 (jobs (ctx m)) (world m)) as [[js w] evs].
  exact H.
Qed.

(** C7: a poll asks [waitpid] about the jobs still marked running and about
    no others; a job whose running flag is false is left exactly as it is by
    any number of polls, so no poll ever turns a flag back to true; polls do
    not change [job_count]; and once every job is settled, any number of
    further polls leaves the whole machine as it is. *)
Theorem polling_is_idempotent_on_settled_jobs (m : Machine World) :
  (exists evs,
      trace (snd (shell_update_jobs m)) = trace m ++ evs /\
      status_checks evs = running_pids (jobs (ctx m))) /\
  (forall (n k : nat) (j : Job),
      jobs (ctx m) !! k = Some j -> running j = false ->
      jobs (ctx (polls n m)) !! k = Some j) /\
  (forall n : nat, job_count (ctx (polls n m)) = job_count (ctx m)) /\
  (all_settled (jobs (ctx m)) = true -> forall n : nat, polls n m = m).
Proof.
  split; [|split; [|split]].
  - unfold shell_update_jobs.
    pose proof (update_jobs_from_checks (jobs (ctx m)) 0 (world m)) as H.
    destruct (update_jobs_from 0 (jobs (ctx m)) (world m)) as [[js w] evs].
    exists evs. split; [reflexivity | exact H].
  - intros n. revert m. induction n as [|n IH]; intros m k j Hk Hj;
      [exact Hk|].
    cbn [polls]. apply IH; [|exact Hj].
    apply shell_update_jobs_keeps_settled; assumption.
  - intros n. revert m. induction n as [|n IH]; intros m; [reflexivity|].
    cbn [polls]. rewrite IH. apply shell_update_jobs_job_count.
  - intros H n. induction n as [|n IH]; [reflexivity|].
    cbn [polls]. rewrite (shell_update_jobs_settled m H). exact IH.
Qed.

End Polling.

Lemma polling_is_idempotent_on_settled_jobs_witness :
  status_checks
    (skipn (length (trace three_jobs_machine))
       (trace (snd (shell_update_jobs (os := counting_system)
                      three_jobs_machine)))) = [11; 13] /\
  jobs (ctx (polls (os := counting_system) 4 three_jobs_machine)) !! 1%nat =
    Some (mkJob 12 (Some "b") false) /\
  all_settled
    (jobs (ctx (polls (os := counting_system) 1 three_jobs_machine))) = true /\
  polls (os := counting_system) 3
    (polls (os := counting_system) 1 three_jobs_machine) =
  polls (os := counting_system) 1 three_jobs_machine.
Proof.
  split; [vm_compute; reflexivity|].
  destruct (polling_is_idempotent_on_settled_jobs (os := counting_system)
              three_jobs_machine) as (_ & Hkeep & _ & _).
  split; [exact (Hkeep 4%nat 1%nat _ eq_refl eq_refl)|].
  split; [vm_compute; reflexivity|].
  destruct (polling_is_idempotent_on_settled_jobs (os := counting_system)
              (polls (os := counting_system) 1 three_jobs_machine))
    as (_ & _ & _ & Hidle).
  exact (Hidle eq_refl 3%nat).
Defined.

(** ** The external executor *)

Section External.

Context {px : Posix} {World : Type} {os : System World}.

Lemma c_argv_head (argv : list (option string)) (args : list string) :
  c_argv argv = Some args -> read_slot argv 0 = Some (head args).
Proof.
  destruct argv as [|[s|] rest]; cbn [c_argv]; [discriminate| |].
  - destruct (c_argv rest); [|discriminate]. intros [= <-]. reflexivity.
  - intros [= <-]. reflexivity.
Qed.

(** C9: whenever the argument vector is well formed the external executor
    returns, having called [posix_spawnp] once with these file actions: an
    open of the input path on descriptor 0 with [O_RDONLY] when an input path
    is present; an open of the output path on descriptor 1 with
    [O_WRONLY | O_CREAT | O_TRUNC] when the append flag is false and
    [O_WRONLY | O_CREAT | O_APPEND] when it is true, mode 0644, when an
    output path is present; and no action for an absent path. *)
Theorem external_file_actions (m : Machine World)
  (argv : list (option string)) (args : list string)
  (i o : option string) (a : bool) :
  c_argv argv = Some args ->
  exists e m',
    shell_execute_external m argv i o a = Returned e m' /\
    trace m' =
      trace m ++
      [Ev_posix_spawnp (head args)
         ((match i with
           | Some f => [mkAddOpen STDIN_FILENO f O_RDONLY 0]
           | None => []
           end) ++
          (match o with
           | Some f =>
               [mkAddOpen STDOUT_FILENO f
                  (if a then Z.lor (Z.lor O_WRONLY O_CREAT) O_APPEND
                   else Z.lor (Z.lor O_WRONLY O_CREAT) O_TRUNC) 420]
           | None => []
           end))
         (spawn_attr m) args].
Proof.
  intros Hargs. unfold shell_execute_external.
  rewrite (c_argv_head _ _ Hargs), Hargs.
  assert (file_actions i o a =
          (match i with
           | Some f => [mkAddOpen STDIN_FILENO f O_RDONLY 0]
           | None => []
           end) ++
          (match o with
           | Some f =>
               [mkAddOpen STDOUT_FILENO f
                  (if a then Z.lor (Z.lor O_WRONLY O_CREAT) O_APPEND
                   else Z.lor (Z.lor O_WRONLY O_CREAT) O_TRUNC) 420]
           | None => []
           end)) as <-.
  { unfold file_actions, input_actions, output_actions, output_flags.
    destruct i, o, a; reflexivity. }
  fold (spawn_attr m).
  destruct (posix_spawnp _ _ _ _ _) as [[status child] w'].
  destruct (status =? 0).
  - unfold shell_add_job. destruct (head args) as [c|]; cbn [ctx].
    + destruct (MAX_JOBS <=? _).
      * eexists _, _. split; reflexivity.
      * cbn [world]. destruct (strdup w' c) as [d w2].
        eexists _, _. split; reflexivity.
    + eexists _, _. split; reflexivity.
  - eexists _, _. split; reflexivity.
Qed.

(** C8: with the job table full, an external command whose spawn succeeds
    still returns [SHELL_OK]; the job table is left as it was, and the spawn
    is the only call made to the system: the child is neither waited for nor
    signalled. *)
Theorem full_job_table_is_not_fatal (m : Machine World)
  (argv : list (option string)) (args : list string)
  (i o : option string) (a : bool) (child : Z) (w' : World) :
  c_argv argv = Some args ->
  MAX_JOBS <= job_count (ctx m) ->
  posix_spawnp (world m) (head args) (file_actions i o a) (spawn_attr m) args =
    (0, child, w') ->
  exists m',
    shell_execute_external m argv i o a = Returned SHELL_OK m' /\
    jobs (ctx m') = jobs (ctx m) /\
    world m' = w' /\
    trace m' =
      trace m ++
      [Ev_posix_spawnp (head args) (file_actions i o a) (spawn_attr m) args].
Proof.
  intros Hargs Hfull Hspawn. unfold shell_execute_external.
  rewrite (c_argv_head _ _ Hargs), Hargs. fold (spawn_attr m).
  rewrite Hspawn. cbn [Z.eqb]. unfold shell_add_job.
  destruct (head args) as [c|]; cbn [ctx].
  - destruct (Z.leb_spec MAX_JOBS (job_count (ctx m))); [|lia].
    eexists. split; [reflexivity|]. repeat split.
  - eexists. split; [reflexivity|]. repeat split.
Qed.

End External.

(** On Linux the truncating open sets bit 9 ([O_TRUNC]) and not bit 10
    ([O_APPEND]); the appending open does the reverse; both set bit 0
    ([O_WRONLY]) and bit 6 ([O_CREAT]). *)
Example linux_output_flags :
  output_flags (px := linux) false = 577 /\
  output_flags (px := linux) true = 1089 /\
  map (Z.testbit 577) [0; 6; 9; 10] = [true; true; true; false] /\
  map (Z.testbit 1089) [0; 6; 9; 10] = [true; true; false; true].
Proof. repeat split. Qed.

Lemma external_file_actions_witness :
  c_argv [Some "sort"; None] = Some ["sort"] /\
  exists e m',
    shell_execute_external (px := linux) (os := counting_system) fresh
      [Some "sort"; None] (Some "in.txt") (Some "out.txt") true =
      Returned e m' /\
    trace m' =
      trace fresh ++
      [Ev_posix_spawnp (Some "sort")
         [mkAddOpen 0 "in.txt" 0 0; mkAddOpen 1 "out.txt" 1089 420]
         (mkSpawnAttr 12 [2; 15]) ["sort"]].
Proof.
  split; [reflexivity|].
  exact (external_file_actions (px := linux) (os := counting_system) fresh
           [Some "sort"; None] ["sort"] (Some "in.txt") (Some "out.txt") true
           eq_refl).
Defined.

Lemma full_job_table_is_not_fatal_witness :
  c_argv [Some "ls"; None] = Some ["ls"] /\
  MAX_JOBS <= job_count (ctx full_machine) /\
  exists m',
    shell_execute_external (px := linux) (os := counting_system) full_machine
      [Some "ls"; None] None None false = Returned SHELL_OK m' /\
    jobs (ctx m') = jobs (ctx full_machine).
Proof.
  split; [reflexivity|]. split; [vm_compute; discriminate|].
  destruct (full_job_table_is_not_fatal (px := linux) (os := counting_system)
              full_machine [Some "ls"; None] ["ls"] None None false 1000 1%nat
              eq_refl)
    as (m' & Hx & Hjobs & _); [vm_compute; discriminate | reflexivity |].
  exists m'. split; [exact Hx | exact Hjobs].
Defined.

(** ** The custom command registry *)

Section Registry.

Context {px : Posix} {World : Type} {os : System World}.

Lemma register_all_entries (regs : list (string * CommandCallback))
  (m0 m : Machine World) :
  register_all m0 regs = Some m ->
  custom_commands (ctx m) = custom_commands (ctx m0) ++ map entry_of regs.
Proof.
  revert m0. induction regs as [|[n cb] regs IH]; intros m0.
  - intros [= <-]. rewrite app_nil_r. reflexivity.
  - cbn [register_all]. unfold shell_register_command.
    destruct (MAX_CUSTOM_COMMANDS <=? _); [discriminate|].
    unfold strdup. destruct (malloc_ok (world m0)) as [[|] w'];
      [|discriminate].
    intros H. rewrite (IH _ H). cbn [ctx with_custom_commands custom_commands map].
    rewrite <- app_assoc. reflexivity.
Qed.

Lemma custom_lookup_registered (regs : list (string * CommandCallback))
  (k : nat) (nk : string) (cbk : CommandCallback) :
  regs !! k = Some (nk, cbk) ->
  exists c,
    custom_lookup (Some (Some nk)) (map entry_of regs) = Found c /\
    name c = nk /\
    (NoDup (map fst regs) -> callback c = cbk).
Proof.
  revert k. induction regs as [|[n0 cb0] regs IH]; intros k Hk;
    [discriminate|].
  cbn [map custom_lookup entry_of fst snd name].
  destruct (String.eqb nk n0) eqn:E.
  - apply String.eqb_eq in E. subst n0.
    exists (mkCustomCommand nk cb0). split; [reflexivity|].
    split; [reflexivity|]. intros Hnd. cbn [callback].
    destruct k as [|k]; [injection Hk as <-; reflexivity|].
    change (((nk, cb0) :: regs) !! S k) with (regs !! k) in Hk.
    cbn [map fst] in Hnd. apply NoDup_cons in Hnd as [Hnotin _].
    exfalso. apply Hnotin. apply list_elem_of_lookup. exists k.
    rewrite list_lookup_fmap, Hk. reflexivity.
  - destruct k as [|k].
    + injection Hk as <- <-. rewrite String.eqb_refl in E. discriminate.
    + change (((n0, cb0) :: regs) !! S k) with (regs !! k) in Hk.
      destruct (IH k Hk) as (c & Hc & Hn & Hcb).
      exists c. split; [exact Hc|]. split; [exact Hn|].
      intros Hnd. cbn [map fst] in Hnd. apply NoDup_cons in Hnd as [_ Hnd].
      exact (Hcb Hnd).
Qed.

(** C6: after [MAX_CUSTOM_COMMANDS] successful registrations on an empty
    registry the table holds exactly those names and callbacks in order; the
    next registration returns [SHELL_ERROR_CUSTOM_COMMAND_FULL] and leaves
    the table as it is, every lookup giving what it gave before; and each
    registered name is still found, so that [shell_execute_custom] under
    that name runs the callback of the entry found, which is the callback
    registered with it when the names are distinct. *)
Theorem registration_beyond_capacity_fails (m0 m : Machine World)
  (regs : list (string * CommandCallback)) :
  custom_commands (ctx m0) = [] ->
  Z.of_nat (length regs) = MAX_CUSTOM_COMMANDS ->
  register_all m0 regs = Some m ->
  custom_commands (ctx m) = map entry_of regs /\
  forall (n : string) (cb : CommandCallback),
    exists m',
      shell_register_command m (Some n) (Some cb) =
        (SHELL_ERROR_CUSTOM_COMMAND_FULL, m') /\
      custom_commands (ctx m') = custom_commands (ctx m) /\
      forall (k : nat) (nk : string) (cbk : CommandCallback),
        regs !! k = Some (nk, cbk) ->
        exists c,
          custom_lookup (Some (Some nk)) (custom_commands (ctx m')) = Found c /\
          name c = nk /\
          (NoDup (map fst regs) -> callback c = cbk) /\
          forall (argc : Z) (argv : list (option string)),
            read_slot argv 0 = Some (Some nk) ->
            shell_execute_custom m' argc argv =
              Returned (fst (callback c (base (ctx m')) argc argv))
                (with_ctx
                   (with_base (snd (callback c (base (ctx m')) argc argv))
                      (ctx m')) m').
Proof.
  intros Hempty Hlen Hreg.
  pose proof (register_all_entries regs m0 m Hreg) as Hentries.
  rewrite Hempty in Hentries. cbn [app] in Hentries.
  split; [exact Hentries|].
  intros n cb. unfold shell_register_command.
  destruct (Z.leb_spec MAX_CUSTOM_COMMANDS (custom_command_count (ctx m)))
    as [_|Hlt].
  2:{ unfold custom_command_count in Hlt.
      rewrite Hentries, length_map in Hlt. lia. }
  eexists. split; [reflexivity|]. split; [reflexivity|].
  intros k nk cbk Hk.
  destruct (custom_lookup_registered regs k nk cbk Hk) as (c & Hc & Hn & Hcb).
  exists c. cbn [with_ctx ctx fail_with with_base custom_commands].
  rewrite Hentries. split; [exact Hc|]. split; [exact Hn|].
  split; [exact Hcb|].
  intros argc argv Hargv. unfold shell_execute_custom.
  cbn [with_ctx ctx fail_with with_base custom_commands base].
  rewrite Hargv, Hentries, Hc.
  destruct (callback c _ argc argv) as [e b']. reflexivity.
Qed.

End Registry.

Lemma registration_beyond_capacity_fails_witness :
  custom_commands (ctx fresh) = [] /\
  Z.of_nat (length fifty_commands) = MAX_CUSTOM_COMMANDS /\
  register_all (os := counting_system) fresh fifty_commands =
    Some fifty_machine /\
  exists m',
    shell_register_command (os := counting_system) fifty_machine (Some "extra")
      (Some failing_callback) = (SHELL_ERROR_CUSTOM_COMMAND_FULL, m') /\
    custom_commands (ctx m') = custom_commands (ctx fifty_machine) /\
    exists c,
      custom_lookup (Some (Some "Z")) (custom_commands (ctx m')) = Found c /\
      name c = "Z".
Proof.
  split; [reflexivity|]. split; [reflexivity|].
  split; [vm_compute; reflexivity|].
  destruct (registration_beyond_capacity_fails (os := counting_system)
              fresh fifty_machine fifty_commands)
    as [_ H]; [reflexivity | reflexivity | vm_compute; reflexivity |].
  destruct (H "extra" failing_callback) as (m' & Hreg & Hsame & Hfound).
  exists m'. split; [exact Hreg|]. split; [exact Hsame|].
  destruct (Hfound 25%nat "Z" ok_callback eq_refl) as (c & Hc & Hn & _).
  exists c. split; [exact Hc | exact Hn].
Defined.

(** ** Blank lines *)

Section Blank.

Context {px : Posix} {World : Type} {os : System World}.

Lemma blank_line_dispatch (m : Machine World) (line : string) :
  all_spaces line = true ->
  custom_commands (ctx m) = [] ->
  shell_execute_command m (Some line) =
  shell_execute_external
    (with_ctx (fail_with SHELL_ERROR_COMMAND_NOT_FOUND (ctx m)) m)
    [None] None None false.
Proof.
  intros Hsp Hempty. unfold shell_execute_command.
  rewrite (tokenize_all_spaces line Hsp).
  change (extract_redirects []) with (Some (mkRedirect [None] None None false)).
  change (MAX_INPUT_SIZE <=? Z.of_nat (length (@nil string))) with false.
  cbv iota. unfold resolve_command, shell_execute_custom. cbn [tokens].
  rewrite Hempty. reflexivity.
Qed.

Lemma blank_line_with_registry (m : Machine World) (line : string) :
  all_spaces line = true ->
  custom_commands (ctx m) <> [] ->
  shell_execute_command m (Some line) = Undefined.
Proof.
  intros Hsp Hne. unfold shell_execute_command.
  rewrite (tokenize_all_spaces line Hsp).
  change (extract_redirects []) with (Some (mkRedirect [None] None None false)).
  change (MAX_INPUT_SIZE <=? Z.of_nat (length (@nil string))) with false.
  cbv iota. unfold resolve_command, shell_execute_custom. cbn [tokens].
  destruct (custom_commands (ctx m)); [congruence | reflexivity].
Qed.

Lemma blank_line_never_not_found (m : Machine World) (line : string) :
  all_spaces line = true ->
  custom_commands (ctx m) = [] ->
  exists e m',
    shell_execute_command m (Some line) = Returned e m' /\
    e <> SHELL_ERROR_COMMAND_NOT_FOUND /\
    trace m' = trace m ++ [Ev_posix_spawnp None [] (spawn_attr m) []].
Proof.
  intros Hsp Hempty. rewrite (blank_line_dispatch m line Hsp Hempty).
  unfold shell_execute_external.
  change (read_slot [None] 0) with (Some (@None string)).
  cbn [c_argv]. cbv iota. unfold file_actions. cbn [input_actions output_actions app].
  fold (spawn_attr (with_ctx (fail_with SHELL_ERROR_COMMAND_NOT_FOUND (ctx m)) m)).
  change (spawn_attr (with_ctx (fail_with SHELL_ERROR_COMMAND_NOT_FOUND (ctx m)) m))
    with (spawn_attr m).
  destruct (posix_spawnp _ _ _ _ _) as [[status child] w'].
  destruct (status =? 0).
  - eexists _, _. split; [reflexivity|]. split; [discriminate | reflexivity].
  - eexists _, _. split; [reflexivity|]. split; [discriminate | reflexivity].
Qed.

(** C3 (what the code does on a blank line): a line of spaces tokenizes to
    nothing, yet the dispatch does not stop there.  With an empty registry it
    runs through the built-in stage, which reports a null pointer, into the
    external stage, which calls [posix_spawnp] with a [NULL] file name; the
    status returned is that of the external stage, never command-not-found.
    With a command registered, the custom stage compares the [NULL]
    argument 0 with the registered name, which is undefined. *)
Theorem blank_line_reaches_spawn (m : Machine World) (line : string) :
  all_spaces line = true ->
  tokenize line = [] /\
  (custom_commands (ctx m) = [] ->
   exists e m',
     shell_execute_command m (Some line) = Returned e m' /\
     e <> SHELL_ERROR_COMMAND_NOT_FOUND /\
     trace m' = trace m ++ [Ev_posix_spawnp None [] (spawn_attr m) []]) /\
  (custom_commands (ctx m) <> [] ->
   shell_execute_command m (Some line) = Undefined).
Proof.
  intros Hsp. split; [exact (tokenize_all_spaces line Hsp)|]. split.
  - exact (blank_line_never_not_found m line Hsp).
  - exact (blank_line_with_registry m line Hsp).
Qed.

End Blank.

Lemma blank_line_reaches_spawn_witness :
  all_spaces "   " = true /\
  (exists m',
      shell_execute_command (px := linux) (os := counting_system) fresh (Some "   ") =
        Returned SHELL_ERROR_EXECUTION_FAILED m' /\
      trace m' =
        trace fresh ++
        [Ev_posix_spawnp None [] (mkSpawnAttr 12 [2; 15]) []]) /\
  shell_execute_command (px := linux) (os := counting_system) hello_machine
    (Some "   ") = Undefined.
Proof.
  split; [reflexivity|].
  destruct (blank_line_reaches_spawn (px := linux) (os := counting_system)
              fresh "   " eq_refl) as (_ & Hfresh & _).
  destruct (blank_line_reaches_spawn (px := linux) (os := counting_system)
              hello_machine "   " eq_refl) as (_ & _ & Hhello).
  split.
  - destruct (Hfresh eq_refl) as (e & m' & Hcmd & _ & Htrace).
    exists m'. split; [|exact Htrace].
    rewrite Hcmd. f_equal.
    assert (shell_execute_command (px := linux) (os := counting_system) fresh
              (Some "   ") =
            Returned SHELL_ERROR_EXECUTION_FAILED
              (mkMachine
                 (fail_with SHELL_ERROR_EXECUTION_FAILED (ctx fresh)) 0%nat
                 (trace fresh ++
                  [Ev_posix_spawnp None [] (mkSpawnAttr 12 [2; 15]) []])))
      as Hrun by (vm_compute; reflexivity).
    rewrite Hrun in Hcmd. injection Hcmd as <- _. reflexivity.
  - apply Hhello. discriminate.
Defined.

(** * Further properties of the code *)

(** ** The tokenizer, continued *)

Lemma no_delim_snoc (cur : string) (c : ascii) :
  no_delim cur = true -> is_delim c = false ->
  no_delim (String.append cur (String c EmptyString)) = true.
Proof.
  intros Hcur Hc. induction cur as [|d cur IH]; simpl.
  - rewrite Hc. reflexivity.
  - simpl in Hcur. apply andb_prop in Hcur as [Hd Hcur].
    rewrite Hd, (IH Hcur). reflexivity.
Qed.

Lemma token_ok_snoc (cur : string) (c : ascii) :
  no_delim cur = true -> is_delim c = false ->
  token_ok (String.append cur (String c EmptyString)) = true.
Proof.
  intros Hcur Hc. pose proof (no_delim_snoc cur c Hcur Hc) as H.
  destruct cur; simpl in *; exact H.
Qed.

Lemma strtok_from_tokens_ok (s cur : string) :
  no_delim cur = true -> forallb token_ok (strtok_from cur s) = true.
Proof.
  revert cur. induction s as [|c s IH]; intros cur Hcur.
  - destruct cur; [reflexivity|]. simpl. rewrite andb_true_r. exact Hcur.
  - cbn [strtok_from]. destruct (is_delim c) eqn:Hc.
    + destruct cur as [|d cur]; cbn [flush]; [apply IH; reflexivity|].
      cbn [forallb]. rewrite (IH EmptyString eq_refl), andb_true_r.
      exact Hcur.
    + apply IH. apply no_delim_snoc; assumption.
Qed.

(** X1: every token the tokenizer produces is non-empty and contains no
    space. *)
Theorem tokenize_tokens_ok (line : string) :
  forallb token_ok (tokenize line) = true.
Proof. apply strtok_from_tokens_ok. reflexivity. Qed.

Lemma flush_app (cur : string) (l1 l2 : list string) :
  flush cur l1 ++ l2 = flush cur (l1 ++ l2).
Proof. destruct cur; reflexivity. Qed.

Lemma strtok_from_app_space (s1 s2 cur : string) :
  strtok_from cur (String.append s1 (String " "%char s2)) =
  strtok_from cur s1 ++ tokenize s2.
Proof.
  revert cur. induction s1 as [|c s1 IH]; intros cur.
  - cbn. rewrite flush_app. reflexivity.
  - cbn [String.append strtok_from]. destruct (is_delim c).
    + rewrite IH, flush_app. reflexivity.
    + apply IH.
Qed.

(** X2: tokenizing two pieces separated by a space gives the tokens of the
    first piece followed by the tokens of the second. *)
Theorem tokenize_app_space (s1 s2 : string) :
  tokenize (String.append s1 (String " "%char s2)) =
  tokenize s1 ++ tokenize s2.
Proof. apply strtok_from_app_space. Qed.

Lemma append_assoc_snoc (cur : string) (c : ascii) (t : string) :
  String.append (String.append cur (String c EmptyString)) t =
  String.append cur (String c t).
Proof. induction cur as [|d cur IH]; simpl; [reflexivity|]. rewrite IH. reflexivity. Qed.

Lemma append_empty_r (s : string) : String.append s EmptyString = s.
Proof. induction s as [|c s IH]; simpl; [reflexivity|]. rewrite IH. reflexivity. Qed.

Lemma strtok_from_no_delim (t cur : string) :
  no_delim t = true ->
  strtok_from cur t = flush (String.append cur t) [].
Proof.
  revert cur. induction t as [|c t IH]; intros cur Ht.
  - rewrite append_empty_r. reflexivity.
  - simpl in Ht. apply andb_prop in Ht as [Hc Ht]. apply negb_true_iff in Hc.
    cbn [strtok_from]. rewrite Hc, (IH _ Ht), append_assoc_snoc. reflexivity.
Qed.

Lemma tokenize_token (t : string) :
  token_ok t = true -> tokenize t = [t].
Proof.
  intros Ht. unfold tokenize.
  destruct t as [|c t]; [discriminate|].
  rewrite strtok_from_no_delim by exact Ht. reflexivity.
Qed.

(** X3: tokenizing is the inverse of writing well-formed tokens on one line
    with single spaces between them. *)
Theorem tokenize_join_tokens (ts : list string) :
  forallb token_ok ts = true -> tokenize (join_tokens ts) = ts.
Proof.
  induction ts as [|t ts IH]; intros H; [reflexivity|].
  cbn [forallb] in H. apply andb_prop in H as [Ht Hts].
  destruct ts as [|t2 ts].
  - exact (tokenize_token t Ht).
  - change (join_tokens (t :: t2 :: ts))
      with (String.append t (String " "%char (join_tokens (t2 :: ts)))).
    unfold tokenize at 1. rewrite strtok_from_app_space.
    fold (tokenize t). rewrite (tokenize_token t Ht), (IH Hts).
    reflexivity.
Qed.

Lemma tokenize_join_tokens_witness :
  forallb token_ok ["cat"; "<"; "in.txt"] = true /\
  tokenize (join_tokens ["cat"; "<"; "in.txt"]) = ["cat"; "<"; "in.txt"].
Proof.
  split; [reflexivity|].
  exact (tokenize_join_tokens ["cat"; "<"; "in.txt"] eq_refl).
Defined.

Lemma strtok_from_length (s cur : string) :
  (2 * length (strtok_from cur s) <=
   String.length s + match cur with EmptyString => 1 | _ => 2 end)%nat.
Proof.
  revert cur. induction s as [|c s IH]; intros cur.
  - destruct cur; simpl; lia.
  - cbn [strtok_from String.length]. destruct (is_delim c).
    + specialize (IH EmptyString). destruct cur; simpl in *; lia.
    + specialize (IH (String.append cur (String c EmptyString))).
      destruct cur; simpl in *; lia.
Qed.

Section ShortLines.

Context {px : Posix} {World : Type} {os : System World}.

(** X4: a line of [n] characters has at most [(n + 1) / 2] tokens; hence a
    line shorter than [2 * MAX_INPUT_SIZE - 1] characters fits the [tokens]
    array with its terminator, and [shell_execute_command] goes on to the
    dispatch with the scanned array. *)
Theorem short_line_fits_token_array (m : Machine World) (line : string) :
  (2 * length (tokenize line) <= String.length line + 1)%nat /\
  (Z.of_nat (String.length line) < 2 * MAX_INPUT_SIZE - 1 ->
   Z.of_nat (length (tokenize line)) < MAX_INPUT_SIZE /\
   exists r,
     extract_redirects (tokenize line) = Some r /\
     shell_execute_command m (Some line) =
       resolve_command m (Z.of_nat (length (tokenize line))) r).
Proof.
  pose proof (strtok_from_length line EmptyString) as Hb.
  fold (tokenize line) in Hb. split; [exact Hb|].
  intros Hlen.
  assert (Z.of_nat (length (tokenize line)) < MAX_INPUT_SIZE) as Hfit
    by (unfold MAX_INPUT_SIZE in *; lia).
  split; [exact Hfit|].
  destruct (shell_execute_command_resolve m line Hfit)
    as (r & Hr & _ & _ & _ & _ & Hcmd).
  exists r. split; assumption.
Qed.

End ShortLines.

Lemma short_line_fits_token_array_witness :
  Z.of_nat (String.length "a b c") < 2 * MAX_INPUT_SIZE - 1 /\
  Z.of_nat (length (tokenize "a b c")) < MAX_INPUT_SIZE.
Proof.
  split; [reflexivity|].
  exact (proj1 (proj2 (short_line_fits_token_array (px := linux)
                         (os := counting_system) fresh "a b c") eq_refl)).
Defined.

(** ** The redirection scan, continued *)

(** X5: on every token list the scan completes without reading a [NULL] or
    an uninitialised slot, and it moves nothing: the array keeps its length,
    the terminator stays in the last slot, every redirection operator is
    replaced by [NULL] in place and every other token stays in its slot. *)
Theorem redirect_scan_slots (toks : list string) :
  exists r,
    extract_redirects toks = Some r /\
    length (tokens r) = S (length toks) /\
    read_slot (tokens r) (length toks) = Some None /\
    forall (k : nat) (t : string),
      toks !! k = Some t ->
      read_slot (tokens r) k =
        Some (if is_redirect_op t then None else Some t).
Proof.
  destruct (extract_redirects_fields toks) as (r & Hr & Ht & _).
  exists r. split; [exact Hr|]. rewrite Ht. unfold read_slot.
  split; [rewrite length_app, length_map; simpl; lia|].
  split.
  - rewrite lookup_app_r by (rewrite length_map; lia).
    rewrite length_map, Nat.sub_diag. reflexivity.
  - intros k t Hk.
    rewrite lookup_app_l
      by (rewrite length_map; apply lookup_lt_Some in Hk; exact Hk).
    rewrite list_lookup_fmap, Hk. reflexivity.
Qed.

Lemma scan_files_no_redirect (ts : list string) (i o : option string)
  (a : bool) :
  no_redirect_op ts = true -> scan_files ts i o a = (i, o, a).
Proof.
  revert i o a. induction ts as [|t ts IH]; intros i o a H; [reflexivity|].
  cbn [no_redirect_op forallb] in H. apply andb_prop in H as [Ht Hts].
  split_ops. cbn [scan_files]. rewrite H, H0, H1. apply IH. exact Hts.
Qed.

Lemma scanned_slot_no_redirect (ts : list string) :
  no_redirect_op ts = true -> map scanned_slot ts = map Some ts.
Proof.
  induction ts as [|t ts IH]; intros H; [reflexivity|].
  cbn [no_redirect_op forallb] in H. apply andb_prop in H as [Ht Hts].
  apply negb_true_iff in Ht. cbn [map]. unfold scanned_slot at 1.
  rewrite Ht, (IH Hts). reflexivity.
Qed.

Lemma before_redirect_no_redirect (ts : list string) :
  no_redirect_op ts = true -> before_redirect ts = ts.
Proof.
  induction ts as [|t ts IH]; intros H; [reflexivity|].
  cbn [no_redirect_op forallb] in H. apply andb_prop in H as [Ht Hts].
  apply negb_true_iff in Ht. cbn [before_redirect].
  rewrite Ht, (IH Hts). reflexivity.
Qed.

(** X6: a token list without redirection operators goes through the scan
    unchanged: no path is set, the append flag stays false, and the argument
    vector the strategies see is the whole token list. *)
Theorem operator_free_line_is_unchanged (toks : list string) :
  no_redirect_op toks = true ->
  extract_redirects toks =
    Some (mkRedirect (token_array toks) None None false) /\
  c_argv (token_array toks) = Some toks.
Proof.
  intros H. rewrite extract_redirects_total.
  rewrite (scan_files_no_redirect toks None None false H).
  unfold token_array. rewrite <- (scanned_slot_no_redirect toks H).
  split; [reflexivity|].
  rewrite c_argv_scanned, (before_redirect_no_redirect toks H). reflexivity.
Qed.

Lemma operator_free_line_is_unchanged_witness :
  no_redirect_op ["ls"; "-l"; "/tmp"] = true /\
  extract_redirects ["ls"; "-l"; "/tmp"] =
    Some (mkRedirect [Some "ls"; Some "-l"; Some "/tmp"; None]
            None None false).
Proof.
  split; [reflexivity|].
  exact (proj1 (operator_free_line_is_unchanged ["ls"; "-l"; "/tmp"] eq_refl)).
Defined.

(** X7: with several input redirections on a line, the input path is the
    slot that follows the last [<] of the scan; output operators on the line
    do not affect it. *)
Theorem last_input_redirection_wins (pre post : list string) (op : string) :
  is_input_op op = true ->
  no_input_op post = true ->
  exists r,
    extract_redirects (pre ++ op :: post) = Some r /\
    input_file r = head post.
Proof.
  intros Hop Hpost.
  destruct (extract_redirects_fields (pre ++ op :: post))
    as (r & Hr & _ & Hi & _).
  exists r. split; [exact Hr|]. rewrite Hi. unfold scan_input.
  exact (scan_files_last_input pre post op None None false Hop Hpost).
Qed.

Lemma last_input_redirection_wins_witness :
  is_input_op "<" = true /\
  no_input_op ["b"; ">"; "c"] = true /\
  exists r,
    extract_redirects (["sort"; "<"; "a"] ++ "<" :: ["b"; ">"; "c"]) = Some r /\
    input_file r = Some "b".
Proof.
  split; [reflexivity|]. split; [reflexivity|].
  exact (last_input_redirection_wins ["sort"; "<"; "a"] ["b"; ">"; "c"] "<"
           eq_refl eq_refl).
Defined.

(** ** Dispatch, continued *)

Section DispatchMore.

Context {px : Posix} {World : Type} {os : System World}.

Lemma shell_execute_external_status (m m' : Machine World)
  (argv : list (option string)) (i o : option string) (a : bool)
  (e : ShellError) :
  shell_execute_external m argv i o a = Returned e m' ->
  e = SHELL_OK \/ e = SHELL_ERROR_EXECUTION_FAILED.
Proof.
  unfold shell_execute_external.
  destruct (read_slot argv 0) as [file|]; [|discriminate].
  destruct (c_argv argv) as [args|]; [|discriminate].
  destruct (posix_spawnp _ _ _ _ _) as [[status child] w'].
  destruct (status =? 0).
  - destruct (shell_add_job _ child file) as [e2 m2].
    intros [= <- _]. left. reflexivity.
  - intros [= <- _]. right. reflexivity.
Qed.

Lemma resolve_command_status (m m' : Machine World) (argc : Z) (r : Redirect)
  (e : ShellError) :
  resolve_command m argc r = Returned e m' ->
  e = SHELL_OK \/ e = SHELL_ERROR_EXECUTION_FAILED.
Proof.
  unfold resolve_command. intros H.
  destruct (shell_execute_custom m argc (tokens r)) as [e1 m1| |];
    [|discriminate|discriminate].
  destruct e1; try (injection H as <- _; left; reflexivity);
    (destruct (read_slot (tokens r) 0) as [t0|]; [|discriminate];
     destruct (shell_execute_builtin m1 t0) as [e2 m2| |];
       [|discriminate|discriminate];
     destruct e2; try (injection H as <- _; left; reflexivity);
       exact (shell_execute_external_status _ _ _ _ _ _ _ H)).
Qed.

(** X8: a call of [shell_execute_command] with a [NULL] command returns
    [SHELL_ERROR_NULL_POINTER] and changes nothing; whenever a call with a
    command line returns, its status is [SHELL_OK] or
    [SHELL_ERROR_EXECUTION_FAILED]: a command that no stage knows is
    reported as a failed execution, never as command-not-found, and the
    status of a failing callback or built-in is never passed on. *)
Theorem command_status_range (m m' : Machine World)
  (command_arg : option string) (e : ShellError) :
  shell_execute_command m command_arg = Returned e m' ->
  match command_arg with
  | None => e = SHELL_ERROR_NULL_POINTER /\ m' = m
  | Some _ => e = SHELL_OK \/ e = SHELL_ERROR_EXECUTION_FAILED
  end.
Proof.
  unfold shell_execute_command. destruct command_arg as [line|].
  - destruct (MAX_INPUT_SIZE <=? _); [discriminate|].
    destruct (extract_redirects _) as [r|]; [|discriminate].
    apply resolve_command_status.
  - intros [= <- <-]. split; reflexivity.
Qed.

Lemma resolve_command_custom_miss (m : Machine World) (argc : Z)
  (r : Redirect) (t0 : option string) :
  read_slot (tokens r) 0 = Some t0 ->
  custom_lookup (Some t0) (custom_commands (ctx m)) = NotFound ->
  resolve_command m argc r =
  match shell_execute_builtin (after_custom_miss m) t0 with
  | Returned SHELL_OK m2 => Returned SHELL_OK m2
  | Returned _ m2 =>
      shell_execute_external m2 (tokens r) (input_file r) (output_file r)
        (append_output r)
  | o => o
  end.
Proof.
  intros H0 Hmiss. unfold resolve_command, shell_execute_custom.
  rewrite H0, Hmiss. reflexivity.
Qed.

(** X9: a line whose first token is a redirection operator is dispatched
    with a [NULL] command name.  With a command registered, the custom stage
    compares that [NULL] with the registered name, which is undefined; with
    an empty registry the built-in stage reports a null pointer and the
    external stage calls [posix_spawnp] with a [NULL] file name and an empty
    argument vector. *)
Theorem leading_operator_gives_null_command (m : Machine World)
  (line : string) (op : string) (rest : list string) :
  tokenize line = op :: rest ->
  Z.of_nat (length (tokenize line)) < MAX_INPUT_SIZE ->
  is_redirect_op op = true ->
  (custom_commands (ctx m) <> [] -> shell_execute_command m (Some line) = Undefined) /\
  (custom_commands (ctx m) = [] ->
   exists e m',
     shell_execute_command m (Some line) = Returned e m' /\
     trace m' =
       trace m ++
       [Ev_posix_spawnp None
          (file_actions (scan_input (op :: rest)) (scan_output (op :: rest))
             (scan_append (op :: rest)))
          (spawn_attr m) []]).
Proof.
  intros Htok Hlen Hop.
  destruct (shell_execute_command_resolve m line Hlen)
    as (r & _ & Ht & Hi & Ho & Ha & Hcmd).
  rewrite Hcmd, Htok in *. clear Hcmd.
  assert (tokens r = None :: map scanned_slot rest ++ [None]) as Hts.
  { rewrite Ht. cbn [map app]. unfold scanned_slot at 1. rewrite Hop.
    reflexivity. }
  split.
  - intros Hne. unfold resolve_command, shell_execute_custom. rewrite Hts.
    cbn [read_slot]. destruct (custom_commands (ctx m)); [congruence|].
    reflexivity.
  - intros Hempty.
    rewrite (resolve_command_custom_miss m _ r None);
      [|rewrite Hts; reflexivity|rewrite Hempty; reflexivity].
    cbn [shell_execute_builtin]. unfold shell_execute_external.
    rewrite Hts, Hi, Ho, Ha.
    change (read_slot (None :: map scanned_slot rest ++ [None]) 0)
      with (Some (@None string)).
    cbn [c_argv]. cbv iota.
    fold (spawn_attr (after_custom_miss m)).
    change (spawn_attr (after_custom_miss m)) with (spawn_attr m).
    destruct (posix_spawnp _ _ _ _ _) as [[status child] w'].
    destruct (status =? 0); eexists _, _; split; reflexivity.
Qed.

(** X10: when [posix_spawnp] reports a failure, the external executor
    returns [SHELL_ERROR_EXECUTION_FAILED], records it in [last_error], and
    leaves the job table and the registry as they were. *)
Theorem external_spawn_failure (m : Machine World)
  (argv : list (option string)) (args : list string)
  (i o : option string) (a : bool) (status child : Z) (w' : World) :
  c_argv argv = Some args ->
  posix_spawnp (world m) (head args) (file_actions i o a) (spawn_attr m) args =
    (status, child, w') ->
  status <> 0 ->
  exists m',
    shell_execute_external m argv i o a =
      Returned SHELL_ERROR_EXECUTION_FAILED m' /\
    last_error (base (ctx m')) = SHELL_ERROR_EXECUTION_FAILED /\
    jobs (ctx m') = jobs (ctx m) /\
    custom_commands (ctx m') = custom_commands (ctx m) /\
    world m' = w'.
Proof.
  intros Hargs Hspawn Hst. unfold shell_execute_external.
  rewrite (c_argv_head _ _ Hargs), Hargs. fold (spawn_attr m).
  rewrite Hspawn. destruct (Z.eqb_spec status 0); [contradiction|].
  eexists. split; [reflexivity|]. repeat split.
Qed.

(** X11: when [posix_spawnp] succeeds for a named program and the job table
    has room, the external executor returns [SHELL_OK] and appends one job:
    the child's pid, a copy of argument 0 as its command text ([NULL] when
    the copy cannot be allocated), marked running.  The earlier jobs and
    [last_error] are untouched. *)
Theorem external_spawn_records_job (m : Machine World)
  (argv : list (option string)) (args : list string) (c : string)
  (i o : option string) (a : bool) (child : Z) (w' : World) :
  c_argv argv = Some (c :: args) ->
  posix_spawnp (world m) (Some c) (file_actions i o a) (spawn_attr m)
    (c :: args) = (0, child, w') ->
  job_count (ctx m) < MAX_JOBS ->
  exists m',
    shell_execute_external m argv i o a = Returned SHELL_OK m' /\
    jobs (ctx m') = jobs (ctx m) ++ [mkJob child (fst (strdup w' c)) true] /\
    last_error (base (ctx m')) = last_error (base (ctx m)) /\
    world m' = snd (strdup w' c).
Proof.
  intros Hargs Hspawn Hroom. unfold shell_execute_external.
  rewrite (c_argv_head _ _ Hargs), Hargs. fold (spawn_attr m).
  cbn [head] in *. rewrite Hspawn. cbn [Z.eqb]. unfold shell_add_job.
  cbn [ctx world].
  destruct (Z.leb_spec MAX_JOBS (job_count (ctx m))); [lia|].
  destruct (strdup w' c) as [d w2].
  eexists. split; [reflexivity|]. repeat split.
Qed.

End DispatchMore.

Lemma command_status_range_witness :
  shell_execute_command (px := linux) (os := barren_system) fresh
    (Some "nosuch") =
    Returned SHELL_ERROR_EXECUTION_FAILED
      (mkMachine (fail_with SHELL_ERROR_EXECUTION_FAILED (ctx fresh)) 0%nat
         (trace fresh ++
          [Ev_posix_spawnp (Some "nosuch") [] (mkSpawnAttr 12 [2; 15])
             ["nosuch"]])) /\
  shell_execute_command (px := linux) (os := barren_system) fresh None =
    Returned SHELL_ERROR_NULL_POINTER fresh /\
  (SHELL_ERROR_EXECUTION_FAILED = SHELL_OK \/
   SHELL_ERROR_EXECUTION_FAILED = SHELL_ERROR_EXECUTION_FAILED) /\
  (SHELL_ERROR_NULL_POINTER = SHELL_ERROR_NULL_POINTER /\ fresh = fresh).
Proof.
  assert (shell_execute_command (px := linux) (os := barren_system) fresh
            (Some "nosuch") =
          Returned SHELL_ERROR_EXECUTION_FAILED
            (mkMachine (fail_with SHELL_ERROR_EXECUTION_FAILED (ctx fresh))
               0%nat
               (trace fresh ++
                [Ev_posix_spawnp (Some "nosuch") [] (mkSpawnAttr 12 [2; 15])
                   ["nosuch"]]))) as H by (vm_compute; reflexivity).
  assert (shell_execute_command (px := linux) (os := barren_system) fresh None =
          Returned SHELL_ERROR_NULL_POINTER fresh) as H0 by reflexivity.
  split; [exact H|]. split; [exact H0|]. split.
  - exact (command_status_range (px := linux) (os := barren_system) _ _ _ _ H).
  - exact (command_status_range (px := linux) (os := barren_system) _ _ _ _ H0).
Defined.

Lemma leading_operator_gives_null_command_witness :
  tokenize "> out ls" = ">" :: ["out"; "ls"] /\
  Z.of_nat (length (tokenize "> out ls")) < MAX_INPUT_SIZE /\
  is_redirect_op ">" = true /\
  shell_execute_command (px := linux) (os := counting_system) hello_machine
    (Some "> out ls") = Undefined.
Proof.
  repeat (split; [reflexivity|]).
  destruct (leading_operator_gives_null_command (px := linux)
              (os := counting_system) hello_machine "> out ls" ">"
              ["out"; "ls"] eq_refl eq_refl eq_refl) as [H _].
  apply H. discriminate.
Defined.

Lemma external_spawn_failure_witness :
  c_argv [Some "nosuch"; None] = Some ["nosuch"] /\
  exists m',
    shell_execute_external (px := linux) (os := barren_system) fresh
      [Some "nosuch"; None] None None false =
      Returned SHELL_ERROR_EXECUTION_FAILED m' /\
    jobs (ctx m') = jobs (ctx fresh).
Proof.
  split; [reflexivity|].
  destruct (external_spawn_failure (px := linux) (os := barren_system) fresh
              [Some "nosuch"; None] ["nosuch"] None None false 2 0 0%nat
              eq_refl eq_refl)
    as (m' & Hx & _ & Hjobs & _); [discriminate|].
  exists m'. split; [exact Hx | exact Hjobs].
Defined.

Lemma external_spawn_records_job_witness :
  c_argv [Some "cat"; Some "f"; None] = Some ("cat" :: ["f"]) /\
  job_count (ctx fresh) < MAX_JOBS /\
  exists m',
    shell_execute_external (px := linux) (os := counting_system) fresh
      [Some "cat"; Some "f"; None] None None false = Returned SHELL_OK m' /\
    jobs (ctx m') = [mkJob 1000 (Some "cat") true].
Proof.
  split; [reflexivity|]. split; [reflexivity|].
  destruct (external_spawn_records_job (px := linux) (os := counting_system)
              fresh [Some "cat"; Some "f"; None] ["f"] "cat" None None false
              1000 1%nat eq_refl eq_refl eq_refl)
    as (m' & Hx & Hjobs & _).
  exists m'. split; [exact Hx | exact Hjobs].
Defined.

(** ** The built-in stage and [last_error] *)

Section Builtins.

Context {px : Posix} {World : Type} {os : System World}.

Lemma shell_update_jobs_frame (m : Machine World) :
  base (ctx (snd (shell_update_jobs m))) = base (ctx m) /\
  custom_commands (ctx (snd (shell_update_jobs m))) = custom_commands (ctx m).
Proof.
  unfold shell_update_jobs.
  destruct (update_jobs_from 0 (jobs (ctx m)) (world m)) as [[js w] evs].
  split; reflexivity.
Qed.

Lemma shell_execute_builtin_last_error (m m' : Machine World)
  (c : option string) (e : ShellError) :
  shell_execute_builtin m c = Returned e m' ->
  last_error (base (ctx m')) = last_error (base (ctx m)) \/
  last_error (base (ctx m')) = SHELL_ERROR_COMMAND_NOT_FOUND.
Proof.
  unfold shell_execute_builtin. destruct c as [c|];
    [|intros [= _ <-]; left; reflexivity].
  destruct (String.eqb c "exit"); [discriminate|].
  destruct (String.eqb c "history"); [intros [= _ <-]; left; reflexivity|].
  destruct (String.eqb c "jobs"); [|intros [= _ <-]; right; reflexivity].
  pose proof (shell_update_jobs_frame m) as [Hb _].
  destruct (shell_update_jobs m) as [e1 m1]. intros [= _ <-].
  left. cbn [snd] in Hb. cbn [emit ctx]. rewrite Hb. reflexivity.
Qed.

Lemma shell_execute_external_last_error (m m' : Machine World)
  (argv : list (option string)) (i o : option string) (a : bool)
  (e : ShellError) :
  shell_execute_external m argv i o a = Returned e m' ->
  (e = SHELL_ERROR_EXECUTION_FAILED /\
   last_error (base (ctx m')) = SHELL_ERROR_EXECUTION_FAILED) \/
  (e = SHELL_OK /\
   (last_error (base (ctx m')) = last_error (base (ctx m)) \/
    last_error (base (ctx m')) = SHELL_ERROR_JOB_CONTROL_FULL)).
Proof.
  unfold shell_execute_external.
  destruct (read_slot argv 0) as [file|]; [|discriminate].
  destruct (c_argv argv) as [args|]; [|discriminate].
  destruct (posix_spawnp _ _ _ _ _) as [[status child] w'].
  destruct (status =? 0).
  - unfold shell_add_job. destruct file as [c|]; cbn [ctx world].
    + destruct (MAX_JOBS <=? _).
      * intros [= <- <-]. right. split; [reflexivity|]. right. reflexivity.
      * destruct (strdup w' c) as [d w2]. intros [= <- <-].
        right. split; [reflexivity|]. left. reflexivity.
    + intros [= <- <-]. right. split; [reflexivity|]. left. reflexivity.
  - intros [= <- <-]. left. split; reflexivity.
Qed.

(** X12: when no custom command matches argument 0, a command line that
    returns leaves an error code in [last_error] even when it returns
    [SHELL_OK]: the miss of the custom stage has set
    [SHELL_ERROR_COMMAND_NOT_FOUND] and no later stage sets [last_error] back
    to [SHELL_OK]. *)
Theorem last_error_after_custom_miss (m m' : Machine World) (line : string)
  (e : ShellError) :
  custom_lookup (read_slot (map scanned_slot (tokenize line) ++ [None]) 0)
    (custom_commands (ctx m)) = NotFound ->
  shell_execute_command m (Some line) = Returned e m' ->
  (e = SHELL_OK ->
   last_error (base (ctx m')) = SHELL_ERROR_COMMAND_NOT_FOUND \/
   last_error (base (ctx m')) = SHELL_ERROR_JOB_CONTROL_FULL) /\
  (e = SHELL_ERROR_EXECUTION_FAILED ->
   last_error (base (ctx m')) = SHELL_ERROR_EXECUTION_FAILED).
Proof.
  intros Hmiss Hcmd.
  assert (Z.of_nat (length (tokenize line)) < MAX_INPUT_SIZE) as Hlen.
  { unfold shell_execute_command in Hcmd.
    destruct (Z.leb_spec MAX_INPUT_SIZE (Z.of_nat (length (tokenize line))));
      [discriminate | assumption]. }
  destruct (shell_execute_command_resolve m line Hlen)
    as (r & _ & Ht & _ & _ & _ & Hres).
  rewrite Hres in Hcmd. clear Hres. rewrite <- Ht in Hmiss.
  assert (exists t0, read_slot (tokens r) 0 = Some t0) as [t0 H0].
  { rewrite Ht. destruct (tokenize line); eexists; reflexivity. }
  rewrite H0 in Hmiss.
  rewrite (resolve_command_custom_miss m _ r t0 H0 Hmiss) in Hcmd.
  destruct (shell_execute_builtin (after_custom_miss m) t0)
    as [e2 m2| |] eqn:E2; [|discriminate|discriminate].
  assert (last_error (base (ctx m2)) = SHELL_ERROR_COMMAND_NOT_FOUND) as Hm2.
  { destruct (shell_execute_builtin_last_error _ _ _ _ E2) as [H|H];
      rewrite H; reflexivity. }
  assert (forall m3, m3 = m' -> m2 = m3 ->
            last_error (base (ctx m')) = SHELL_ERROR_COMMAND_NOT_FOUND)
    as Hsame by (intros m3 <- <-; exact Hm2).
  destruct e2;
    try (injection Hcmd as <- <-; split; [intros _; left; exact Hm2|discriminate]);
    (destruct (shell_execute_external_last_error _ _ _ _ _ _ _ Hcmd)
       as [[-> Hle]|[-> [Hle|Hle]]];
     (split; [intros He|intros He]); try discriminate;
     try (exact Hle);
     try (left; rewrite Hle; exact Hm2);
     try (right; exact Hle)).
Qed.

Lemma print_history_lookup (h : list string) (i0 : Z) (k : nat) :
  print_history i0 h !! k =
  (fun entry => Ev_printf_history (i0 + Z.of_nat k + 1) entry) <$> h !! k.
Proof.
  revert i0 k. induction h as [|x h IH]; intros i0 k; [reflexivity|].
  cbn [print_history]. destruct k as [|k].
  - cbn. f_equal. f_equal. lia.
  - change ((x :: h) !! S k) with (h !! k).
    change ((Ev_printf_history (i0 + 1) x :: print_history (i0 + 1) h) !! S k)
      with (print_history (i0 + 1) h !! k).
    rewrite IH. destruct (h !! k); cbn; [|reflexivity].
    f_equal. f_equal. lia.
Qed.

Lemma print_jobs_lookup (js : list Job) (i0 : Z) (k : nat) :
  print_jobs i0 js !! k =
  (fun j => Ev_printf_job (i0 + Z.of_nat k + 1) (running j) (command j))
    <$> js !! k.
Proof.
  revert i0 k. induction js as [|x js IH]; intros i0 k; [reflexivity|].
  cbn [print_jobs]. destruct k as [|k].
  - cbn. f_equal. f_equal. lia.
  - change ((x :: js) !! S k) with (js !! k).
    change ((Ev_printf_job (i0 + 1) (running x) (command x) ::
             print_jobs (i0 + 1) js) !! S k)
      with (print_jobs (i0 + 1) js !! k).
    rewrite IH. destruct (js !! k); cbn; [|reflexivity].
    f_equal. f_equal. lia.
Qed.

(** X13: the [history] built-in returns [SHELL_OK], changes nothing in the
    context and makes no system call; it prints one line per history entry,
    in order, entry [k] (counted from 0) under the index [k + 1]. *)
Theorem builtin_history_lists_entries (m : Machine World) :
  exists evs,
    shell_execute_builtin m (Some "history") =
      Returned SHELL_OK (mkMachine (ctx m) (world m) (trace m ++ evs)) /\
    length evs = length (history (base (ctx m))) /\
    forall k : nat,
      evs !! k =
      (fun entry => Ev_printf_history (Z.of_nat k + 1) entry)
        <$> history (base (ctx m)) !! k.
Proof.
  exists (print_history 0 (history (base (ctx m)))).
  split; [reflexivity|]. split.
  - generalize 0. induction (history (base (ctx m))) as [|x h IH]; intros i0;
      [reflexivity|]. cbn [print_history length]. rewrite IH. reflexivity.
  - intros k. rewrite print_history_lookup. reflexivity.
Qed.

(** X14: the [jobs] built-in polls the job table first and then prints one
    line per job, in table order, job [k] (counted from 0) under the index
    [k + 1] with the running flag it has after the poll; it returns
    [SHELL_OK] and leaves the context as the poll left it. *)
Theorem builtin_jobs_polls_then_lists (m : Machine World) :
  exists evs,
    let m1 := snd (shell_update_jobs m) in
    shell_execute_builtin m (Some "jobs") =
      Returned SHELL_OK (mkMachine (ctx m1) (world m1) (trace m1 ++ evs)) /\
    Z.of_nat (length evs) = job_count (ctx m) /\
    forall k : nat,
      evs !! k =
      (fun j => Ev_printf_job (Z.of_nat k + 1) (running j) (command j))
        <$> jobs (ctx m1) !! k.
Proof.
  exists (print_jobs 0 (jobs (ctx (snd (shell_update_jobs m))))).
  cbv zeta. split; [|split].
  - unfold shell_execute_builtin. cbn [String.eqb Ascii.eqb Bool.eqb].
    destruct (shell_update_jobs m) as [e1 m1]. reflexivity.
  - rewrite <- (shell_update_jobs_job_count m). unfold job_count.
    generalize 0.
    induction (jobs (ctx (snd (shell_update_jobs m)))) as [|x js IH];
      intros i0; [reflexivity|].
    cbn [print_jobs length]. rewrite !Nat2Z.inj_succ, IH. reflexivity.
  - intros k. rewrite print_jobs_lookup. reflexivity.
Qed.

(** X15: a line whose first token is [exit], when no custom command is
    registered under that name, ends the process with exit code 0, whatever
    tokens follow; nothing is printed, polled or spawned on the way, and the
    only change to the context is the [SHELL_ERROR_COMMAND_NOT_FOUND] the
    custom stage has left in [last_error]. *)
Theorem exit_line_exits (m : Machine World) (line : string)
  (rest : list string) :
  tokenize line = "exit" :: rest ->
  Z.of_nat (length (tokenize line)) < MAX_INPUT_SIZE ->
  custom_lookup (Some (Some "exit")) (custom_commands (ctx m)) = NotFound ->
  shell_execute_command m (Some line) = Exited 0 (after_custom_miss m).
Proof.
  intros Htok Hlen Hmiss.
  destruct (shell_execute_command_resolve m line Hlen)
    as (r & _ & Ht & _ & _ & _ & Hcmd).
  rewrite Hcmd.
  rewrite (resolve_command_custom_miss m _ r (Some "exit"));
    [reflexivity| |exact Hmiss].
  rewrite Ht, Htok. reflexivity.
Qed.

End Builtins.

Example builtin_history_example :
  shell_execute_builtin (os := counting_system) history_machine
    (Some "history") =
  Returned SHELL_OK
    (mkMachine (ctx history_machine) 0%nat
       (trace history_machine ++
        [Ev_printf_history 1 "ls"; Ev_printf_history 2 "pwd"])).
Proof. reflexivity. Qed.

Lemma last_error_after_custom_miss_witness :
  exists m',
    shell_execute_command (px := linux) (os := counting_system) fresh (Some "ls") =
      Returned SHELL_OK m' /\
    last_error (base (ctx m')) = SHELL_ERROR_COMMAND_NOT_FOUND.
Proof.
  assert (exists m',
            shell_execute_command (px := linux) (os := counting_system) fresh
              (Some "ls") = Returned SHELL_OK m') as [m' H]
    by (eexists; vm_compute; reflexivity).
  exists m'. split; [exact H|].
  destruct (last_error_after_custom_miss (px := linux)
              (os := counting_system) fresh m' "ls" SHELL_OK eq_refl H)
    as [Hok _].
  destruct (Hok eq_refl) as [Hle|Hle]; [exact Hle|].
  exfalso. revert Hle. vm_compute in H. injection H as <-. discriminate.
Defined.

Lemma exit_line_exits_witness :
  tokenize "exit now" = "exit" :: ["now"] /\
  Z.of_nat (length (tokenize "exit now")) < MAX_INPUT_SIZE /\
  custom_lookup (Some (Some "exit")) (custom_commands (ctx hello_machine)) =
    NotFound /\
  shell_execute_command (px := linux) (os := counting_system) hello_machine
    (Some "exit now") = Exited 0 (after_custom_miss hello_machine).
Proof.
  repeat (split; [reflexivity|]).
  exact (exit_line_exits (px := linux) (os := counting_system) hello_machine
           "exit now" ["now"] eq_refl eq_refl eq_refl).
Defined.

(** ** Polling, continued *)

Section PollingMore.

Context {px : Posix} {World : Type} {os : System World}.

Lemma update_jobs_from_labels (js : list Job) (i0 : Z) (w : World) :
  job_labels (fst (fst (update_jobs_from i0 js w))) = job_labels js.
Proof.
  revert i0 w. induction js as [|j js IH]; intros i0 w; [reflexivity|].
  cbn [update_jobs_from]. destruct (running j).
  - destruct (waitpid w (pid j)) as [res w1].
    specialize (IH (i0 + 1) w1).
    destruct (update_jobs_from (i0 + 1) js w1) as [[js' w2] evs].
    destruct (0 <? res); cbn in *; rewrite IH; reflexivity.
  - specialize (IH (i0 + 1) w).
    destruct (update_jobs_from (i0 + 1) js w) as [[js' w2] evs].
    cbn in *. rewrite IH. reflexivity.
Qed.

Lemma shell_update_jobs_labels (m : Machine World) :
  job_labels (jobs (ctx (snd (shell_update_jobs m)))) =
  job_labels (jobs (ctx m)).
Proof.
  unfold shell_update_jobs.
  pose proof (update_jobs_from_labels (jobs (ctx m)) 0 (world m)) as H.
  destruct (update_jobs_from 0 (jobs (ctx m)) (world m)) as [[js w] evs].
  exact H.
Qed.

(** X16: polling never changes which jobs the table holds: after any number
    of polls the pids and command texts are the same, in the same order;
    only running flags can change. *)
Theorem polling_keeps_job_labels (m : Machine World) (n : nat) :
  job_labels (jobs (ctx (polls n m))) = job_labels (jobs (ctx m)).
Proof.
  revert m. induction n as [|n IH]; intros m; [reflexivity|].
  cbn [polls]. rewrite IH. apply shell_update_jobs_labels.
Qed.

Lemma update_jobs_from_notices (js : list Job) (i0 : Z) (w : World) :
  let '(js', _, evs) := update_jobs_from i0 js w in
  (length (List.filter running js) =
   length (List.filter running js') + length (done_notices evs))%nat /\
  forall (i : Z) (c : option string),
    In (i, c) (done_notices evs) ->
    i0 < i /\
    exists j,
      js !! Z.to_nat (i - i0 - 1) = Some j /\
      running j = true /\ command j = c /\
      js' !! Z.to_nat (i - i0 - 1) = Some (mkJob (pid j) c false).
Proof.
  revert i0 w. induction js as [|j js IH]; intros i0 w.
  - cbn. split; [reflexivity|]. intros i c [].
  - cbn [update_jobs_from]. destruct (running j) eqn:Hj.
    + destruct (waitpid w (pid j)) as [res w1].
      specialize (IH (i0 + 1) w1).
      destruct (update_jobs_from (i0 + 1) js w1) as [[js' w2] evs].
      destruct IH as [Hcount Hnot].
      destruct (0 <? res).
      * split.
        -- change (done_notices
                     (Ev_waitpid (pid j) :: Ev_printf_done (i0 + 1) (command j)
                        :: evs))
             with ((i0 + 1, command j) :: done_notices evs).
           cbn [List.filter running]. rewrite Hj. cbn [length]. lia.
        -- intros i c Hin.
           change (done_notices
                     (Ev_waitpid (pid j) :: Ev_printf_done (i0 + 1) (command j)
                        :: evs))
             with ((i0 + 1, command j) :: done_notices evs) in Hin.
           destruct Hin as [[= <- <-]|Hin].
           ++ split; [lia|]. exists j.
              replace (i0 + 1 - i0 - 1) with 0 by lia.
              repeat split; assumption.
           ++ destruct (Hnot i c Hin) as (Hlt & j' & Hk & Hr & Hc & Hk').
              split; [lia|]. exists j'.
              replace (Z.to_nat (i - i0 - 1))
                with (S (Z.to_nat (i - (i0 + 1) - 1))) by lia.
              repeat split; assumption.
      * split.
        -- cbn [List.filter running]. rewrite Hj.
           change (done_notices (Ev_waitpid (pid j) :: evs))
             with (done_notices evs).
           cbn [length]. lia.
        -- intros i c Hin.
           change (done_notices (Ev_waitpid (pid j) :: evs))
             with (done_notices evs) in Hin.
           destruct (Hnot i c Hin) as (Hlt & j' & Hk & Hr & Hc & Hk').
           split; [lia|]. exists j'.
           replace (Z.to_nat (i - i0 - 1))
             with (S (Z.to_nat (i - (i0 + 1) - 1))) by lia.
           repeat split; assumption.
    + specialize (IH (i0 + 1) w).
      destruct (update_jobs_from (i0 + 1) js w) as [[js' w2] evs].
      destruct IH as [Hcount Hnot]. split.
      * cbn [List.filter]. rewrite Hj. exact Hcount.
      * intros i c Hin.
        destruct (Hnot i c Hin) as (Hlt & j' & Hk & Hr & Hc & Hk').
        split; [lia|]. exists j'.
        replace (Z.to_nat (i - i0 - 1))
          with (S (Z.to_nat (i - (i0 + 1) - 1))) by lia.
        repeat split; assumption.
Qed.

(** X17: a poll prints one "Done" notice for each job that it turns from
    running to done and no other: the number of running jobs drops by the
    number of notices, and every notice carries the 1-based table index and
    the command text of a job that was running before the poll and is marked
    done after it. *)
Theorem done_notices_match_settled_jobs (m : Machine World) :
  exists evs,
    let m' := snd (shell_update_jobs m) in
    trace m' = trace m ++ evs /\
    (length (List.filter running (jobs (ctx m))) =
     length (List.filter running (jobs (ctx m'))) +
     length (done_notices evs))%nat /\
    forall (i : Z) (c : option string),
      In (i, c) (done_notices evs) ->
      0 < i /\
      exists j,
        jobs (ctx m) !! Z.to_nat (i - 1) = Some j /\
        running j = true /\ command j = c /\
        jobs (ctx m') !! Z.to_nat (i - 1) = Some (mkJob (pid j) c false).
Proof.
  unfold shell_update_jobs.
  pose proof (update_jobs_from_notices (jobs (ctx m)) 0 (world m)) as H.
  destruct (update_jobs_from 0 (jobs (ctx m)) (world m)) as [[js w] evs].
  destruct H as [Hcount Hnot].
  exists evs. cbv zeta. cbn [snd ctx trace with_jobs jobs].
  split; [reflexivity|]. split; [exact Hcount|].
  intros i c Hin. destruct (Hnot i c Hin) as (Hlt & j & Hk & Hr & Hc & Hk').
  replace (i - 0 - 1) with (i - 1) in * by lia.
  split; [lia|]. exists j. repeat split; assumption.
Qed.

Lemma update_jobs_from_all_exited (js : list Job) (i0 : Z) (w : World) :
  (forall w' j, In j js -> running j = true -> 0 < fst (waitpid w' (pid j))) ->
  all_settled (fst (fst (update_jobs_from i0 js w))) = true.
Proof.
  revert i0 w. induction js as [|j js IH]; intros i0 w Hex; [reflexivity|].
  assert (forall w' j', In j' js -> running j' = true ->
            0 < fst (waitpid w' (pid j'))) as Hex'
    by (intros w' j' Hin; apply Hex; right; exact Hin).
  cbn [update_jobs_from]. destruct (running j) eqn:Hj.
  - pose proof (Hex w j (or_introl eq_refl) Hj) as Hpos.
    destruct (waitpid w (pid j)) as [res w1]. cbn [fst] in Hpos.
    specialize (IH (i0 + 1) w1 Hex').
    destruct (update_jobs_from (i0 + 1) js w1) as [[js' w2] evs].
    destruct (Z.ltb_spec 0 res); [|lia]. cbn in *. exact IH.
  - specialize (IH (i0 + 1) w Hex').
    destruct (update_jobs_from (i0 + 1) js w) as [[js' w2] evs].
    cbn in *. rewrite Hj. exact IH.
Qed.

(** X18: when [waitpid] answers with a positive value for every job still
    marked running, one poll marks every job done. *)
Theorem poll_settles_exited_children (m : Machine World) :
  (forall (w : World) (j : Job),
      In j (jobs (ctx m)) -> running j = true ->
      0 < fst (waitpid w (pid j))) ->
  all_settled (jobs (ctx (snd (shell_update_jobs m)))) = true.
Proof.
  intros Hex. unfold shell_update_jobs.
  pose proof (update_jobs_from_all_exited (jobs (ctx m)) 0 (world m) Hex) as H.
  destruct (update_jobs_from 0 (jobs (ctx m)) (world m)) as [[js w] evs].
  exact H.
Qed.

Lemma update_jobs_from_none_exited (js : list Job) (i0 : Z) (w : World) :
  (forall w' j, In j js -> running j = true -> fst (waitpid w' (pid j)) <= 0) ->
  fst (fst (update_jobs_from i0 js w)) = js /\
  snd (update_jobs_from i0 js w) = map Ev_waitpid (running_pids js).
Proof.
  revert i0 w. induction js as [|j js IH]; intros i0 w Hex;
    [split; reflexivity|].
  assert (forall w' j', In j' js -> running j' = true ->
            fst (waitpid w' (pid j')) <= 0) as Hex'
    by (intros w' j' Hin; apply Hex; right; exact Hin).
  cbn [update_jobs_from]. unfold running_pids. cbn [List.filter].
  destruct (running j) eqn:Hj.
  - pose proof (Hex w j (or_introl eq_refl) Hj) as Hneg.
    destruct (waitpid w (pid j)) as [res w1]. cbn [fst] in Hneg.
    specialize (IH (i0 + 1) w1 Hex').
    destruct (update_jobs_from (i0 + 1) js w1) as [[js' w2] evs].
    destruct (Z.ltb_spec 0 res); [lia|]. cbn in *.
    destruct IH as [-> ->]. split; reflexivity.
  - specialize (IH (i0 + 1) w Hex').
    destruct (update_jobs_from (i0 + 1) js w) as [[js' w2] evs].
    cbn in *. destruct IH as [-> ->]. split; reflexivity.
Qed.

(** X19: when [waitpid] answers 0 or a negative value (the child has not
    changed state, or the call failed) for every job still marked running,
    a poll asks about each of them and changes no job and prints nothing:
    a job whose [waitpid] keeps failing stays marked running. *)
Theorem poll_keeps_unfinished_jobs (m : Machine World) :
  (forall (w : World) (j : Job),
      In j (jobs (ctx m)) -> running j = true ->
      fst (waitpid w (pid j)) <= 0) ->
  ctx (snd (shell_update_jobs m)) = ctx m /\
  trace (snd (shell_update_jobs m)) =
    trace m ++ map Ev_waitpid (running_pids (jobs (ctx m))).
Proof.
  intros Hex. unfold shell_update_jobs.
  pose proof (update_jobs_from_none_exited (jobs (ctx m)) 0 (world m) Hex)
    as [Hjs Hevs].
  destruct (update_jobs_from 0 (jobs (ctx m)) (world m)) as [[js w] evs].
  cbn in *. subst. split; [|reflexivity].
  destruct (ctx m). reflexivity.
Qed.

End PollingMore.

Lemma poll_settles_exited_children_witness :
  (forall (w : nat) (j : Job),
      In j (jobs (ctx three_jobs_machine)) -> running j = true ->
      0 < fst (waitpid (System := counting_system) w (pid j))) /\
  all_settled
    (jobs (ctx (snd (shell_update_jobs (os := counting_system)
                       three_jobs_machine)))) = true.
Proof.
  assert (forall (w : nat) (j : Job),
            In j (jobs (ctx three_jobs_machine)) -> running j = true ->
            0 < fst (waitpid (System := counting_system) w (pid j))) as H.
  { intros w j [<-|[<-|[<-|[]]]] _; reflexivity. }
  split; [exact H|].
  exact (poll_settles_exited_children (os := counting_system)
           three_jobs_machine H).
Defined.

Lemma poll_keeps_unfinished_jobs_witness :
  (forall (w : nat) (j : Job),
      In j (jobs (ctx three_jobs_machine)) -> running j = true ->
      fst (waitpid (System := barren_system) w (pid j)) <= 0) /\
  trace (snd (shell_update_jobs (os := barren_system) three_jobs_machine)) =
    trace three_jobs_machine ++ [Ev_waitpid 11; Ev_waitpid 13].
Proof.
  assert (forall (w : nat) (j : Job),
            In j (jobs (ctx three_jobs_machine)) -> running j = true ->
            fst (waitpid (System := barren_system) w (pid j)) <= 0) as H.
  { intros w j _ _. discriminate. }
  split; [exact H|].
  exact (proj2 (poll_keeps_unfinished_jobs (os := barren_system)
                  three_jobs_machine H)).
Defined.

(** ** The registry and the tables over a session *)

Section Tables.

Context {px : Posix} {World : Type} {os : System World}.

Lemma custom_lookup_app (a : string) (l1 l2 : list CustomCommand) :
  custom_lookup (Some (Some a)) (l1 ++ l2) =
  match custom_lookup (Some (Some a)) l1 with
  | NotFound => custom_lookup (Some (Some a)) l2
  | found => found
  end.
Proof.
  induction l1 as [|c l1 IH]; [reflexivity|].
  cbn [app custom_lookup]. destruct (String.eqb a (name c)); [reflexivity|].
  exact IH.
Qed.

(** X20: a registration that returns [SHELL_OK] appends the new entry at the
    end of the table and touches nothing else.  A name that was already
    found is still found with the same entry, so that registering a name a
    second time does not replace its callback; a name that was not found is
    found afterwards exactly when it is the new name. *)
Theorem registration_appends (m m' : Machine World) (n : string)
  (cb : CommandCallback) :
  shell_register_command m (Some n) (Some cb) = (SHELL_OK, m') ->
  custom_commands (ctx m') = custom_commands (ctx m) ++ [mkCustomCommand n cb] /\
  jobs (ctx m') = jobs (ctx m) /\
  base (ctx m') = base (ctx m) /\
  (forall (a : string) (c : CustomCommand),
      custom_lookup (Some (Some a)) (custom_commands (ctx m)) = Found c ->
      custom_lookup (Some (Some a)) (custom_commands (ctx m')) = Found c) /\
  (forall a : string,
      custom_lookup (Some (Some a)) (custom_commands (ctx m)) = NotFound ->
      custom_lookup (Some (Some a)) (custom_commands (ctx m')) =
        if String.eqb a n then Found (mkCustomCommand n cb) else NotFound).
Proof.
  unfold shell_register_command.
  destruct (MAX_CUSTOM_COMMANDS <=? _); [discriminate|].
  unfold strdup. destruct (malloc_ok (world m)) as [[|] w']; [|discriminate].
  intros [= <-]. cbn [ctx with_custom_commands custom_commands jobs base].
  repeat split.
  - intros a c Hc. rewrite custom_lookup_app, Hc. reflexivity.
  - intros a Hc. rewrite custom_lookup_app, Hc. reflexivity.
Qed.

Lemma shell_register_command_grows (m : Machine World) (n : option string)
  (cb : option CommandCallback) :
  custom_commands (ctx m) `prefix_of`
    custom_commands (ctx (snd (shell_register_command m n cb))) /\
  jobs (ctx (snd (shell_register_command m n cb))) = jobs (ctx m) /\
  (custom_command_count (ctx m) <= MAX_CUSTOM_COMMANDS ->
   custom_command_count (ctx (snd (shell_register_command m n cb))) <=
     MAX_CUSTOM_COMMANDS).
Proof.
  unfold shell_register_command.
  destruct n as [n|]; [|repeat split; [reflexivity|auto]].
  destruct cb as [cb|]; [|repeat split; [reflexivity|auto]].
  destruct (Z.leb_spec MAX_CUSTOM_COMMANDS (custom_command_count (ctx m)));
    [repeat split; [reflexivity|auto]|].
  destruct (strdup (world m) n) as [[d|] w'];
    [|repeat split; [reflexivity|auto]].
  cbn [snd ctx with_custom_commands custom_commands jobs].
  split; [apply prefix_app_r; reflexivity|]. split; [reflexivity|].
  intros _. unfold custom_command_count in *. simpl.
  rewrite length_app. simpl. lia.
Qed.

Lemma shell_add_job_grows (m : Machine World) (p : Z) (c : option string) :
  custom_commands (ctx (snd (shell_add_job m p c))) = custom_commands (ctx m) /\
  job_labels (jobs (ctx m)) `prefix_of`
    job_labels (jobs (ctx (snd (shell_add_job m p c)))).
Proof.
  unfold shell_add_job. destruct c as [c|]; [|split; reflexivity].
  destruct (MAX_JOBS <=? _); [split; reflexivity|].
  destruct (strdup (world m) c) as [d w'].
  cbn [snd ctx with_jobs custom_commands jobs]. split; [reflexivity|].
  unfold job_labels. rewrite map_app. apply prefix_app_r. reflexivity.
Qed.

Lemma shell_update_jobs_grows (m : Machine World) :
  custom_commands (ctx (snd (shell_update_jobs m))) = custom_commands (ctx m) /\
  job_labels (jobs (ctx m)) `prefix_of`
    job_labels (jobs (ctx (snd (shell_update_jobs m)))).
Proof.
  split; [exact (proj2 (shell_update_jobs_frame m))|].
  rewrite shell_update_jobs_labels. reflexivity.
Qed.

Lemma shell_execute_custom_grows (m m' : Machine World) (argc : Z)
  (argv : list (option string)) (e : ShellError) :
  shell_execute_custom m argc argv = Returned e m' ->
  custom_commands (ctx m') = custom_commands (ctx m) /\
  job_labels (jobs (ctx m)) `prefix_of` job_labels (jobs (ctx m')).
Proof.
  unfold shell_execute_custom.
  destruct (custom_lookup _ _) as [c| |]; [| |discriminate].
  - destruct (callback c _ _ _) as [e' b']. intros [= _ <-].
    split; reflexivity.
  - intros [= _ <-]. split; reflexivity.
Qed.

Lemma shell_execute_builtin_grows (m m' : Machine World) (c : option string)
  (e : ShellError) :
  shell_execute_builtin m c = Returned e m' ->
  custom_commands (ctx m') = custom_commands (ctx m) /\
  job_labels (jobs (ctx m)) `prefix_of` job_labels (jobs (ctx m')).
Proof.
  unfold shell_execute_builtin. destruct c as [c|];
    [|intros [= _ <-]; split; reflexivity].
  destruct (String.eqb c "exit"); [discriminate|].
  destruct (String.eqb c "history"); [intros [= _ <-]; split; reflexivity|].
  destruct (String.eqb c "jobs"); [|intros [= _ <-]; split; reflexivity].
  pose proof (shell_update_jobs_grows m) as H.
  destruct (shell_update_jobs m) as [e1 m1]. intros [= _ <-]. exact H.
Qed.

Lemma shell_execute_external_grows (m m' : Machine World)
  (argv : list (option string)) (i o : option string) (a : bool)
  (e : ShellError) :
  shell_execute_external m argv i o a = Returned e m' ->
  custom_commands (ctx m') = custom_commands (ctx m) /\
  job_labels (jobs (ctx m)) `prefix_of` job_labels (jobs (ctx m')).
Proof.
  unfold shell_execute_external.
  destruct (read_slot argv 0) as [file|]; [|discriminate].
  destruct (c_argv argv) as [args|]; [|discriminate].
  destruct (posix_spawnp _ _ _ _ _) as [[status child] w'].
  destruct (status =? 0).
  - match goal with |- context [shell_add_job ?m1 child file] =>
      pose proof (shell_add_job_grows m1 child file) as H;
      destruct (shell_add_job m1 child file) as [e2 m2] end.
    intros [= _ <-]. exact H.
  - intros [= _ <-]. split; reflexivity.
Qed.

Lemma shell_execute_command_grows (m m' : Machine World)
  (line : option string) (e : ShellError) :
  shell_execute_command m line = Returned e m' ->
  custom_commands (ctx m') = custom_commands (ctx m) /\
  job_labels (jobs (ctx m)) `prefix_of` job_labels (jobs (ctx m')).
Proof.
  unfold shell_execute_command.
  destruct line as [line|]; [|intros [= _ <-]; split; reflexivity].
  destruct (MAX_INPUT_SIZE <=? _); [discriminate|].
  destruct (extract_redirects _) as [r|]; [|discriminate].
  unfold resolve_command. intros H.
  destruct (shell_execute_custom m _ (tokens r)) as [e1 m1| |] eqn:E1;
    [|discriminate|discriminate].
  destruct (shell_execute_custom_grows _ _ _ _ _ E1) as [Hc1 Hj1].
  assert (forall t0 e2 m2, shell_execute_builtin m1 t0 = Returned e2 m2 ->
            custom_commands (ctx m2) = custom_commands (ctx m) /\
            job_labels (jobs (ctx m)) `prefix_of` job_labels (jobs (ctx m2)))
    as Hb.
  { intros t0 e2 m2 E2.
    destruct (shell_execute_builtin_grows _ _ _ _ E2) as [Hc2 Hj2].
    split; [congruence | etransitivity; eassumption]. }
  assert (forall m2,
            custom_commands (ctx m2) = custom_commands (ctx m) /\
            job_labels (jobs (ctx m)) `prefix_of` job_labels (jobs (ctx m2)) ->
            shell_execute_external m2 (tokens r) (input_file r)
              (output_file r) (append_output r) = Returned e m' ->
            custom_commands (ctx m') = custom_commands (ctx m) /\
            job_labels (jobs (ctx m)) `prefix_of` job_labels (jobs (ctx m')))
    as Hx.
  { intros m2 [Hc2 Hj2] E3.
    destruct (shell_execute_external_grows _ _ _ _ _ _ _ E3) as [Hc3 Hj3].
    split; [congruence | etransitivity; eassumption]. }
  destruct e1; try (injection H as _ <-; split; assumption);
    (destruct (read_slot (tokens r) 0) as [t0|]; [|discriminate];
     destruct (shell_execute_builtin m1 t0) as [e2 m2| |] eqn:E2;
       [|discriminate|discriminate];
     specialize (Hb _ _ _ E2);
     destruct e2; try (injection H as _ <-; exact Hb);
       exact (Hx _ Hb H)).
Qed.

Lemma session_step_grows (m m' : Machine World) :
  session_step m m' ->
  custom_commands (ctx m) `prefix_of` custom_commands (ctx m') /\
  job_labels (jobs (ctx m)) `prefix_of` job_labels (jobs (ctx m')).
Proof.
  assert (forall m1 m2 : Machine World,
            custom_commands (ctx m2) = custom_commands (ctx m1) /\
            job_labels (jobs (ctx m1)) `prefix_of` job_labels (jobs (ctx m2)) ->
            custom_commands (ctx m1) `prefix_of` custom_commands (ctx m2) /\
            job_labels (jobs (ctx m1)) `prefix_of` job_labels (jobs (ctx m2)))
    as Heq by (intros m1 m2 [-> H]; split; [reflexivity | exact H]).
  intros [m0 n cb|m0 p c|m0|m0 argc argv e m1 E|m0 c e m1 E
         |m0 argv i o a e m1 E|m0 line e m1 E].
  - destruct (shell_register_command_grows m0 n cb) as (Hp & Hj & _).
    split; [exact Hp|]. rewrite Hj. reflexivity.
  - apply Heq, shell_add_job_grows.
  - apply Heq, shell_update_jobs_grows.
  - apply Heq. exact (shell_execute_custom_grows _ _ _ _ _ E).
  - apply Heq. exact (shell_execute_builtin_grows _ _ _ _ E).
  - apply Heq. exact (shell_execute_external_grows _ _ _ _ _ _ _ E).
  - apply Heq. exact (shell_execute_command_grows _ _ _ _ E).
Qed.

(** X21: in every reachable session state the registry holds at most
    [MAX_CUSTOM_COMMANDS] entries. *)
Theorem registry_never_exceeds_capacity (m : Machine World) :
  reachable m -> custom_command_count (ctx m) <= MAX_CUSTOM_COMMANDS.
Proof.
  induction 1 as [w p i|m n cb Hm IH|m p c Hm IH|m Hm IH
                 |m argc argv e m' Hm IH E|m c e m' Hm IH E
                 |m argv i o a e m' Hm IH E|m line e m' Hm IH E].
  - unfold shell_init. destruct (strdup w _) as [q w1].
    destruct (sigprocmask w1 _) as [r w2].
    destruct (r =? -1); unfold custom_command_count, MAX_CUSTOM_COMMANDS;
      simpl; lia.
  - exact (proj2 (proj2 (shell_register_command_grows m n cb)) IH).
  - unfold custom_command_count in *.
    rewrite (proj1 (shell_add_job_grows m p c)). exact IH.
  - unfold custom_command_count in *.
    rewrite (proj1 (shell_update_jobs_grows m)). exact IH.
  - unfold custom_command_count in *.
    rewrite (proj1 (shell_execute_custom_grows _ _ _ _ _ E)). exact IH.
  - unfold custom_command_count in *.
    rewrite (proj1 (shell_execute_builtin_grows _ _ _ _ E)). exact IH.
  - unfold custom_command_count in *.
    rewrite (proj1 (shell_execute_external_grows _ _ _ _ _ _ _ E)). exact IH.
  - unfold custom_command_count in *.
    rewrite (proj1 (shell_execute_command_grows _ _ _ _ E)). exact IH.
Qed.

(** X22: over any sequence of library calls the two tables only grow at the
    end: the registry before is a prefix of the registry after (no command
    is ever unregistered, renamed or reordered), and the pids and command
    texts of the jobs before are a prefix of those after (no job is ever
    removed or reused). *)
Theorem tables_only_grow (m m' : Machine World) :
  session_steps m m' ->
  custom_commands (ctx m) `prefix_of` custom_commands (ctx m') /\
  job_labels (jobs (ctx m)) `prefix_of` job_labels (jobs (ctx m')).
Proof.
  induction 1 as [m|m1 m2 m3 Hstep _ [IHc IHj]]; [split; reflexivity|].
  destruct (session_step_grows _ _ Hstep) as [Hc Hj].
  split; etransitivity; eassumption.
Qed.

End Tables.

Lemma registration_appends_witness :
  shell_register_command (os := counting_system) fresh (Some "hello")
    (Some failing_callback) = (SHELL_OK, hello_machine) /\
  custom_commands (ctx hello_machine) =
    custom_commands (ctx fresh) ++ [mkCustomCommand "hello" failing_callback].
Proof.
  assert (shell_register_command (os := counting_system) fresh (Some "hello")
            (Some failing_callback) = (SHELL_OK, hello_machine)) as H
    by reflexivity.
  split; [exact H|].
  exact (proj1 (registration_appends (os := counting_system) fresh
                  hello_machine "hello" failing_callback H)).
Defined.

Lemma registry_never_exceeds_capacity_witness :
  reachable (px := linux) (os := counting_system) hello_machine /\
  custom_command_count (ctx hello_machine) <= MAX_CUSTOM_COMMANDS.
Proof.
  assert (reachable (px := linux) (os := counting_system) hello_machine) as H.
  { unfold hello_machine, register. apply reach_register.
    unfold fresh. apply reach_init. }
  split; [exact H|].
  exact (registry_never_exceeds_capacity hello_machine H).
Defined.

Lemma tables_only_grow_witness :
  session_steps (px := linux) (os := counting_system) fresh
    (add_jobs (os := counting_system) 1 7 "sleep" hello_machine) /\
  custom_commands (ctx fresh) `prefix_of`
    custom_commands
      (ctx (add_jobs (os := counting_system) 1 7 "sleep" hello_machine)) /\
  job_labels (jobs (ctx fresh)) `prefix_of`
    job_labels
      (jobs (ctx (add_jobs (os := counting_system) 1 7 "sleep" hello_machine))).
Proof.
  assert (session_steps (px := linux) (os := counting_system) fresh
            (add_jobs (os := counting_system) 1 7 "sleep" hello_machine)) as H.
  { apply (steps_next _ hello_machine).
    - unfold hello_machine, register. apply step_register.
    - apply (steps_next _ (snd (shell_add_job (os := counting_system)
                                   hello_machine 7 (Some "sleep")))).
      + apply step_add_job.
      + apply steps_done. }
  split; [exact H|].
  exact (tables_only_grow _ _ H).
Defined.

(** ** Whole lines *)

Section Lines.

Context {px : Posix} {World : Type} {os : System World}.

Lemma shell_execute_builtin_other (m : Machine World) (t : string) :
  is_builtin_name t = false ->
  shell_execute_builtin m (Some t) =
  Returned SHELL_ERROR_COMMAND_NOT_FOUND (after_custom_miss m).
Proof.
  unfold is_builtin_name. intros H.
  apply orb_false_elim in H as [H Hj]. apply orb_false_elim in H as [He Hh].
  unfold shell_execute_builtin. rewrite He, Hh, Hj. reflexivity.
Qed.

(** X23: on a line without redirection operators whose first token is a
    registered name, the callback of the first entry under that name is
    called with [argc] equal to the number of tokens and [argv] holding the
    tokens in order followed by [NULL]; when it returns [SHELL_OK] the
    command line returns [SHELL_OK] in the context the callback leaves. *)
Theorem custom_command_receives_tokens (m : Machine World) (line : string)
  (t0 : string) (rest : list string) (c : CustomCommand)
  (b' : ShellContext) :
  tokenize line = t0 :: rest ->
  Z.of_nat (length (tokenize line)) < MAX_INPUT_SIZE ->
  no_redirect_op (t0 :: rest) = true ->
  custom_lookup (Some (Some t0)) (custom_commands (ctx m)) = Found c ->
  callback c (base (ctx m)) (Z.of_nat (length (t0 :: rest)))
    (map Some (t0 :: rest) ++ [None]) = (SHELL_OK, b') ->
  shell_execute_command m (Some line) =
    Returned SHELL_OK (with_ctx (with_base b' (ctx m)) m).
Proof.
  intros Htok Hlen Hops Hfound Hcb.
  destruct (shell_execute_command_resolve m line Hlen)
    as (r & _ & Ht & _ & _ & _ & Hcmd).
  rewrite Hcmd, Htok in *. clear Hcmd.
  rewrite (scanned_slot_no_redirect _ Hops) in Ht.
  unfold resolve_command, shell_execute_custom. rewrite Ht.
  change (read_slot (map Some (t0 :: rest) ++ [None]) 0)
    with (Some (Some t0)).
  rewrite Hfound, Hcb. reflexivity.
Qed.

(** X24: a line whose first token is neither a redirection operator, nor a
    registered name, nor a built-in name goes to the external executor: one
    [posix_spawnp] call is made, for the program named by the first token,
    with the tokens before the first redirection operator as arguments and
    the file actions of the scanned paths.  If a job is recorded, its command
    text is the first token alone (or [NULL] when the copy fails), not the
    line. *)
Theorem external_line_end_to_end (m : Machine World) (line : string)
  (t0 : string) (rest : list string) :
  tokenize line = t0 :: rest ->
  Z.of_nat (length (tokenize line)) < MAX_INPUT_SIZE ->
  is_redirect_op t0 = false ->
  is_builtin_name t0 = false ->
  custom_lookup (Some (Some t0)) (custom_commands (ctx m)) = NotFound ->
  exists e m',
    shell_execute_command m (Some line) = Returned e m' /\
    trace m' =
      trace m ++
      [Ev_posix_spawnp (Some t0)
         (file_actions (scan_input (t0 :: rest)) (scan_output (t0 :: rest))
            (scan_append (t0 :: rest)))
         (spawn_attr m) (t0 :: before_redirect rest)] /\
    (jobs (ctx m') = jobs (ctx m) \/
     exists j,
       jobs (ctx m') = jobs (ctx m) ++ [j] /\
       running j = true /\
       (command j = Some t0 \/ command j = None)).
Proof.
  intros Htok Hlen Hop Hbuiltin Hmiss.
  destruct (shell_execute_command_resolve m line Hlen)
    as (r & _ & Ht & Hi & Ho & Ha & Hcmd).
  rewrite Hcmd, Htok in *. clear Hcmd.
  assert (tokens r = Some t0 :: map scanned_slot rest ++ [None]) as Hts.
  { rewrite Ht. cbn [map app]. unfold scanned_slot at 1. rewrite Hop.
    reflexivity. }
  rewrite (resolve_command_custom_miss m _ r (Some t0));
    [|rewrite Hts; reflexivity|exact Hmiss].
  rewrite (shell_execute_builtin_other _ t0 Hbuiltin).
  change (after_custom_miss (after_custom_miss m)) with (after_custom_miss m).
  unfold shell_execute_external. rewrite Hts, Hi, Ho, Ha.
  change (read_slot (Some t0 :: map scanned_slot rest ++ [None]) 0)
    with (Some (Some t0)).
  cbn [c_argv]. rewrite c_argv_scanned.
  fold (spawn_attr (after_custom_miss m)).
  change (spawn_attr (after_custom_miss m)) with (spawn_attr m).
  destruct (posix_spawnp _ _ _ _ _) as [[status child] w'].
  destruct (status =? 0).
  - unfold shell_add_job. cbn [ctx world].
    destruct (MAX_JOBS <=? _).
    + eexists _, _. split; [reflexivity|]. split; [reflexivity|].
      left. reflexivity.
    + unfold strdup. destruct (malloc_ok w') as [[|] w2];
        (eexists _, _; split; [reflexivity|]; split; [reflexivity|];
         right; eexists; split; [reflexivity|]; split; [reflexivity|]);
        [left | right]; reflexivity.
  - eexists _, _. split; [reflexivity|]. split; [reflexivity|].
    left. reflexivity.
Qed.

End Lines.

Lemma custom_command_receives_tokens_witness :
  tokenize "show a b" = "show" :: ["a"; "b"] /\
  Z.of_nat (length (tokenize "show a b")) < MAX_INPUT_SIZE /\
  no_redirect_op ("show" :: ["a"; "b"]) = true /\
  exists m',
    shell_execute_command (px := linux) (os := counting_system)
      (register "show" noting_callback fresh) (Some "show a b") =
      Returned SHELL_OK m' /\
    child_pid (base (ctx m')) = 3 /\
    history (base (ctx m')) = ["show"; "a"; "b"].
Proof.
  repeat (split; [reflexivity|]).
  eexists. split.
  - exact (custom_command_receives_tokens (px := linux)
             (os := counting_system) (register "show" noting_callback fresh)
             "show a b" "show" ["a"; "b"]
             (mkCustomCommand "show" noting_callback) _
             eq_refl eq_refl eq_refl eq_refl eq_refl).
  - split; reflexivity.
Defined.

Lemma external_line_end_to_end_witness :
  tokenize "cat < in.txt > out.txt" =
    "cat" :: ["<"; "in.txt"; ">"; "out.txt"] /\
  Z.of_nat (length (tokenize "cat < in.txt > out.txt")) < MAX_INPUT_SIZE /\
  is_redirect_op "cat" = false /\
  is_builtin_name "cat" = false /\
  custom_lookup (Some (Some "cat")) (custom_commands (ctx hello_machine)) =
    NotFound /\
  exists e m',
    shell_execute_command (px := linux) (os := counting_system) hello_machine
      (Some "cat < in.txt > out.txt") = Returned e m' /\
    trace m' =
      trace hello_machine ++
      [Ev_posix_spawnp (Some "cat")
         [mkAddOpen 0 "in.txt" 0 0; mkAddOpen 1 "out.txt" 577 420]
         (mkSpawnAttr 12 [2; 15]) ["cat"]].
Proof.
  repeat (split; [reflexivity|]).
  destruct (external_line_end_to_end (px := linux) (os := counting_system)
              hello_machine "cat < in.txt > out.txt" "cat"
              ["<"; "in.txt"; ">"; "out.txt"]
              eq_refl eq_refl eq_refl eq_refl eq_refl)
    as (e & m' & Hcmd & Htrace & _).
  exists e, m'. split; [exact Hcmd | exact Htrace].
Defined.

(** ** The main loop *)

Lemma fgets_chars_lengths (n : nat) (stdin : string) :
  (String.length (fst (fgets_chars n stdin)) <= n)%nat /\
  (String.length (fst (fgets_chars n stdin)) +
   String.length (snd (fgets_chars n stdin)) = String.length stdin)%nat /\
  (stdin <> EmptyString -> (0 < n)%nat ->
   (String.length (snd (fgets_chars n stdin)) < String.length stdin)%nat).
Proof.
  revert stdin. induction n as [|n IH]; intros stdin.
  - cbn. repeat split; lia.
  - destruct stdin as [|c rest]; [cbn; repeat split; [lia|congruence]|].
    cbn [fgets_chars]. destruct (Ascii.eqb c newline).
    + cbn. repeat split; lia.
    + specialize (IH rest). destruct (fgets_chars n rest) as [chunk rest'].
      cbn in *. destruct IH as (H1 & H2 & _). repeat split; lia.
Qed.

Lemma strip_newline_length (s : string) :
  (String.length (strip_newline s) <= String.length s)%nat.
Proof.
  induction s as [|c s IH]; [reflexivity|].
  cbn [strip_newline].
  destruct (Ascii.eqb c newline || Ascii.eqb c nul)%bool; cbn; lia.
Qed.

Lemma string_length_append (s t : string) :
  String.length (String.append s t) = (String.length s + String.length t)%nat.
Proof. induction s as [|c s IH]; cbn; [reflexivity|]. rewrite IH. reflexivity. Qed.

Lemma fgets_chars_line (n : nat) (line rest : string) :
  no_newline line = true -> (String.length line < n)%nat ->
  fgets_chars n (String.append line (String newline rest)) =
    (String.append line (String newline EmptyString), rest).
Proof.
  revert n. induction line as [|c line IH]; intros n Hnl Hlen.
  - destruct n; [cbn in Hlen; lia|]. cbn [String.append fgets_chars].
    rewrite Ascii.eqb_refl. reflexivity.
  - destruct n; [cbn in Hlen; lia|].
    cbn [no_newline] in Hnl. apply andb_prop in Hnl as [Hc Hnl].
    apply negb_true_iff in Hc. cbn [String.append fgets_chars].
    rewrite Hc, (IH n Hnl) by (cbn in Hlen; lia). reflexivity.
Qed.

Lemma fgets_chars_full (chunk rest : string) :
  no_newline chunk = true ->
  fgets_chars (String.length chunk) (String.append chunk rest) = (chunk, rest).
Proof.
  induction chunk as [|c chunk IH]; intros Hnl; [reflexivity|].
  cbn [no_newline] in Hnl. apply andb_prop in Hnl as [Hc Hnl].
  apply negb_true_iff in Hc.
  cbn [String.length String.append fgets_chars]. rewrite Hc, (IH Hnl).
  reflexivity.
Qed.

Lemma strip_newline_line (line : string) :
  no_newline line = true ->
  strip_newline (String.append line (String newline EmptyString)) =
  c_string line.
Proof.
  induction line as [|c line IH]; intros Hnl.
  - cbn. rewrite Ascii.eqb_refl. reflexivity.
  - cbn [no_newline] in Hnl. apply andb_prop in Hnl as [Hc Hnl].
    apply negb_true_iff in Hc. cbn [String.append strip_newline c_string].
    rewrite Hc. cbn [orb]. destruct (Ascii.eqb c nul); [reflexivity|].
    rewrite (IH Hnl). reflexivity.
Qed.

Lemma strip_newline_none (s : string) :
  no_newline s = true -> strip_newline s = c_string s.
Proof.
  induction s as [|c s IH]; intros Hnl; [reflexivity|].
  cbn [no_newline] in Hnl. apply andb_prop in Hnl as [Hc Hnl].
  apply negb_true_iff in Hc. cbn [strip_newline c_string]. rewrite Hc.
  cbn [orb]. destruct (Ascii.eqb c nul); [reflexivity|].
  rewrite (IH Hnl). reflexivity.
Qed.

Lemma all_spaces_no_newline (s : string) :
  all_spaces s = true -> no_newline s = true.
Proof.
  induction s as [|c s IH]; intros H; [reflexivity|].
  cbn [all_spaces] in H. apply andb_prop in H as [Hc Hs].
  cbn [no_newline]. rewrite (IH Hs), andb_true_r.
  unfold is_delim in Hc. apply Ascii.eqb_eq in Hc. subst c. reflexivity.
Qed.

Lemma all_spaces_c_string (s : string) :
  all_spaces s = true -> c_string s = s.
Proof.
  induction s as [|c s IH]; intros H; [reflexivity|].
  cbn [all_spaces] in H. apply andb_prop in H as [Hc Hs].
  unfold is_delim in Hc. apply Ascii.eqb_eq in Hc. subst c.
  cbn [c_string]. change (Ascii.eqb " " nul) with false. cbv iota.
  rewrite (IH Hs). reflexivity.
Qed.

Section RunProofs.

Context {px : Posix} {World : Type} {os : System World}.
Variable shell_add_history : World -> ShellContext -> string -> ShellContext * World.

Lemma fgets_rest_shorter (stdin chunk rest : string) :
  fgets MAX_INPUT_SIZE stdin = Some (chunk, rest) ->
  (String.length rest < String.length stdin)%nat /\
  (String.length (strip_newline chunk) <= 1023)%nat.
Proof.
  unfold fgets. destruct stdin as [|c s]; [discriminate|].
  assert (0 < Z.to_nat (MAX_INPUT_SIZE - 1) <= 1023)%nat as Hn
    by (unfold MAX_INPUT_SIZE; lia).
  generalize dependent (Z.to_nat (MAX_INPUT_SIZE - 1)). intros n Hn H.
  pose proof (fgets_chars_lengths n (String c s)) as (H1 & _ & H3).
  destruct (fgets_chars n (String c s)) as [chunk' rest'].
  injection H as -> ->. cbn [fst snd] in *.
  split.
  - apply H3; [discriminate | lia].
  - pose proof (strip_newline_length chunk). lia.
Qed.

Lemma run_loop_fuel (f1 f2 : nat) (m : Machine World) (stdin : string)
  (p : list (option string)) :
  (String.length stdin < f1)%nat -> (String.length stdin < f2)%nat ->
  run_loop shell_add_history f1 m stdin p =
  run_loop shell_add_history f2 m stdin p.
Proof.
  revert f2 m stdin p. induction f1 as [|f1 IH]; intros f2 m stdin p H1 H2;
    [lia|].
  destruct f2 as [|f2]; [lia|]. cbn [run_loop].
  destruct (fgets MAX_INPUT_SIZE stdin) as [[chunk rest]|] eqn:E;
    [|reflexivity].
  destruct (fgets_rest_shorter _ _ _ E) as [Hrest _].
  destruct (shell_execute_command _ _) as [e m'| |]; [|reflexivity..].
  apply IH; lia.
Qed.

Lemma run_loop_prompts (fuel : nat) (m : Machine World) (stdin : string)
  (p q : list (option string)) :
  run_loop shell_add_history fuel m stdin (p ++ q) =
  with_prompts p (run_loop shell_add_history fuel m stdin q).
Proof.
  revert m stdin q. induction fuel as [|fuel IH]; intros m stdin q;
    [reflexivity|].
  cbn [run_loop].
  assert (prompt_step m (p ++ q) = p ++ prompt_step m q) as ->.
  { unfold prompt_step. destruct (interactive (base (ctx m)));
      [rewrite app_assoc|]; reflexivity. }
  destruct (fgets MAX_INPUT_SIZE stdin) as [[chunk rest]|]; [|reflexivity].
  destruct (shell_execute_command _ _) as [e m'| |]; [|reflexivity..].
  apply IH.
Qed.

Lemma shell_run_chunk (m : Machine World) (stdin chunk rest : string) :
  fgets MAX_INPUT_SIZE stdin = Some (chunk, rest) ->
  shell_run shell_add_history m stdin =
  match shell_execute_command
          (add_history_step shell_add_history m (strip_newline chunk))
          (Some (strip_newline chunk)) with
  | Returned _ m' =>
      with_prompts (prompt_step m []) (shell_run shell_add_history m' rest)
  | Exited code m' => Run_exited code m' (prompt_step m [])
  | Undefined => Run_undefined
  end.
Proof.
  intros E. unfold shell_run at 1. cbn [run_loop]. rewrite E.
  destruct (fgets_rest_shorter _ _ _ E) as [Hrest _].
  destruct (shell_execute_command _ _) as [e m'| |]; [|reflexivity..].
  rewrite <- (app_nil_r (prompt_step m [])) at 1.
  rewrite run_loop_prompts. f_equal. unfold shell_run.
  apply run_loop_fuel; lia.
Qed.

(** X25: one turn of the main loop on a complete line (fewer than 1023
    bytes, ended by a newline): the C string the buffer then holds, that is
    the line without its newline and cut at its first NUL byte if it has
    one, is handed to [shell_add_history] and then executed in the resulting
    context; if the command returns, whatever its status, the loop goes on
    with the rest of the input; if it exits, the run ends there; a prompt is
    printed first when the session is interactive. *)
Theorem shell_run_executes_line (m : Machine World) (line rest : string) :
  no_newline line = true ->
  (String.length line < 1023)%nat ->
  shell_run shell_add_history m (String.append line (String newline rest)) =
  match shell_execute_command
          (add_history_step shell_add_history m (c_string line))
          (Some (c_string line)) with
  | Returned _ m' =>
      with_prompts (prompt_step m []) (shell_run shell_add_history m' rest)
  | Exited code m' => Run_exited code m' (prompt_step m [])
  | Undefined => Run_undefined
  end.
Proof.
  intros Hnl Hlen.
  rewrite (shell_run_chunk m _ (String.append line (String newline EmptyString))
             rest).
  - rewrite (strip_newline_line line Hnl). reflexivity.
  - unfold fgets.
    destruct (String.append line (String newline rest)) eqn:E;
      [destruct line; discriminate|].
    rewrite <- E. f_equal. apply fgets_chars_line; [exact Hnl|].
    change (Z.to_nat (MAX_INPUT_SIZE - 1)) with 1023%nat. exact Hlen.
Qed.

(** X26: a line of 1023 bytes or more is not executed as one command: its
    first 1023 bytes fill the buffer, the C string they hold (all of them, or
    those before the first NUL byte) is handed to [shell_add_history] and
    executed as a line of its own, and the loop then reads on from byte
    1024, so that the remainder is run as further command lines. *)
Theorem shell_run_splits_long_line (m : Machine World) (chunk rest : string) :
  no_newline chunk = true ->
  String.length chunk = 1023%nat ->
  shell_run shell_add_history m (String.append chunk rest) =
  match shell_execute_command
          (add_history_step shell_add_history m (c_string chunk))
          (Some (c_string chunk)) with
  | Returned _ m' =>
      with_prompts (prompt_step m []) (shell_run shell_add_history m' rest)
  | Exited code m' => Run_exited code m' (prompt_step m [])
  | Undefined => Run_undefined
  end.
Proof.
  intros Hnl Hlen.
  rewrite (shell_run_chunk m _ chunk rest).
  - rewrite (strip_newline_none chunk Hnl). reflexivity.
  - unfold fgets. destruct (String.append chunk rest) eqn:E;
      [destruct chunk; discriminate|].
    rewrite <- E. f_equal.
    change (Z.to_nat (MAX_INPUT_SIZE - 1)) with 1023%nat. rewrite <- Hlen.
    apply fgets_chars_full. exact Hnl.
Qed.

Lemma run_loop_ends (fuel : nat) (m : Machine World) (stdin : string)
  (p : list (option string)) :
  (String.length stdin < fuel)%nat ->
  run_loop shell_add_history fuel m stdin p <> Run_out_of_fuel /\
  forall e m' q,
    run_loop shell_add_history fuel m stdin p = Run_returned e m' q ->
    e = SHELL_ERROR_INVALID_INPUT /\
    last_error (base (ctx m')) = SHELL_ERROR_INVALID_INPUT.
Proof.
  revert m stdin p. induction fuel as [|fuel IH]; intros m stdin p Hlen; [lia|].
  cbn [run_loop].
  destruct (fgets MAX_INPUT_SIZE stdin) as [[chunk rest]|] eqn:E.
  - destruct (fgets_rest_shorter _ _ _ E) as [Hrest _].
    destruct (shell_execute_command _ _) as [e1 m1| |].
    + apply IH. lia.
    + split; [discriminate|]. intros e m' q [=].
    + split; [discriminate|]. intros e m' q [=].
  - split; [discriminate|]. intros e m' q [= <- <- _]. split; reflexivity.
Qed.

(** X27: on every finite input the main loop comes to an end, and when it
    returns it returns [SHELL_ERROR_INVALID_INPUT] with that code in
    [last_error]: running out of input is reported as an error, and no
    failing command makes the loop return. *)
Theorem shell_run_ends (m : Machine World) (stdin : string) :
  shell_run shell_add_history m stdin <> Run_out_of_fuel /\
  forall e m' q,
    shell_run shell_add_history m stdin = Run_returned e m' q ->
    e = SHELL_ERROR_INVALID_INPUT /\
    last_error (base (ctx m')) = SHELL_ERROR_INVALID_INPUT.
Proof. apply run_loop_ends. lia. Qed.

Lemma shell_execute_external_returns (m : Machine World)
  (argv : list (option string)) (args : list string)
  (i o : option string) (a : bool) :
  c_argv argv = Some args ->
  exists e m', shell_execute_external m argv i o a = Returned e m'.
Proof.
  intros Hargs. unfold shell_execute_external.
  rewrite (c_argv_head _ _ Hargs), Hargs.
  destruct (posix_spawnp _ _ _ _ _) as [[status child] w'].
  destruct (status =? 0).
  - destruct (shell_add_job _ child (head args)) as [e2 m2].
    eexists _, _. reflexivity.
  - eexists _, _. reflexivity.
Qed.

Lemma shell_execute_command_defined (m : Machine World) (line : string) :
  custom_commands (ctx m) = [] ->
  Z.of_nat (length (tokenize line)) < MAX_INPUT_SIZE ->
  shell_execute_command m (Some line) <> Undefined.
Proof.
  intros Hempty Hlen.
  destruct (shell_execute_command_resolve m line Hlen)
    as (r & _ & Ht & _ & _ & _ & Hcmd).
  rewrite Hcmd. clear Hcmd.
  assert (exists t0, read_slot (tokens r) 0 = Some t0) as [t0 H0].
  { rewrite Ht. destruct (tokenize line); eexists; reflexivity. }
  rewrite (resolve_command_custom_miss m _ r t0 H0)
    by (rewrite Hempty; reflexivity).
  assert (forall m2, shell_execute_external m2 (tokens r) (input_file r)
                       (output_file r) (append_output r) <> Undefined) as Hx.
  { intros m2.
    destruct (shell_execute_external_returns m2 (tokens r)
                (before_redirect (tokenize line)) (input_file r)
                (output_file r) (append_output r)) as (e & m' & ->);
      [rewrite Ht; apply c_argv_scanned | discriminate]. }
  unfold shell_execute_builtin. destruct t0 as [c|]; [|apply Hx].
  destruct (String.eqb c "exit"); [discriminate|].
  destruct (String.eqb c "history"); [discriminate|].
  destruct (String.eqb c "jobs"); [|apply Hx].
  destruct (shell_update_jobs _) as [e1 m1]. discriminate.
Qed.

(** X28: with an empty registry, [shell_execute_command] returns or exits on
    every line that fits the token array, blank lines and lines that start
    with a redirection operator included: it never compares a [NULL]
    argument, never reads a slot out of range and never overruns [tokens].
    (On such lines the [NULL] command name is handed on to [posix_spawnp].) *)
Theorem command_defined_without_registry (m : Machine World) (line : string) :
  custom_commands (ctx m) = [] ->
  Z.of_nat (length (tokenize line)) < MAX_INPUT_SIZE ->
  shell_execute_command m (Some line) <> Undefined.
Proof. exact (shell_execute_command_defined m line). Qed.

Lemma add_history_step_registry (m : Machine World) (line : string) :
  custom_commands (ctx (add_history_step shell_add_history m line)) =
  custom_commands (ctx m).
Proof.
  unfold add_history_step.
  destruct (shell_add_history _ _ _) as [b' w']. reflexivity.
Qed.

Lemma run_loop_defined (fuel : nat) (m : Machine World) (stdin : string)
  (p : list (option string)) :
  custom_commands (ctx m) = [] ->
  run_loop shell_add_history fuel m stdin p <> Run_undefined.
Proof.
  revert m stdin p. induction fuel as [|fuel IH]; intros m stdin p Hempty;
    [discriminate|].
  cbn [run_loop].
  destruct (fgets MAX_INPUT_SIZE stdin) as [[chunk rest]|] eqn:E;
    [|discriminate].
  destruct (fgets_rest_shorter _ _ _ E) as [_ Hline].
  pose proof (add_history_step_registry m (strip_newline chunk)) as Hreg.
  rewrite Hempty in Hreg.
  assert (Z.of_nat (length (tokenize (strip_newline chunk))) < MAX_INPUT_SIZE)
    as Hfit.
  { pose proof (strtok_from_length (strip_newline chunk) EmptyString) as Hb.
    fold (tokenize (strip_newline chunk)) in Hb. cbv beta iota in Hb.
    unfold MAX_INPUT_SIZE. lia. }
  pose proof (shell_execute_command_defined _ _ Hreg Hfit) as Hdef.
  destruct (shell_execute_command _ _) as [e1 m1| |] eqn:Ecmd;
    [|discriminate|congruence].
  apply IH.
  rewrite (proj1 (shell_execute_command_grows _ _ _ _ Ecmd)). exact Hreg.
Qed.

(** X29: with an empty registry the main loop never compares a [NULL]
    argument, never reads a slot out of range and never overruns [tokens],
    on any finite input and whatever [shell_add_history] does to the base
    context: every line it reads is short enough for the token array. *)
Theorem shell_run_defined_without_registry (m : Machine World)
  (stdin : string) :
  custom_commands (ctx m) = [] ->
  shell_run shell_add_history m stdin <> Run_undefined.
Proof. apply run_loop_defined. Qed.

(** X30: with at least one custom command registered, a blank line (nothing
    or only spaces before the newline) makes the main loop undefined: the
    custom stage compares the [NULL] argument 0 with the first registered
    name. *)
Theorem shell_run_blank_line_undefined (m : Machine World)
  (line rest : string) :
  all_spaces line = true ->
  (String.length line < 1023)%nat ->
  custom_commands (ctx m) <> [] ->
  shell_run shell_add_history m (String.append line (String newline rest)) =
    Run_undefined.
Proof.
  intros Hsp Hlen Hne.
  pose proof (all_spaces_no_newline line Hsp) as Hnl.
  rewrite (shell_run_chunk m _ (String.append line (String newline EmptyString))
             rest).
  - rewrite (strip_newline_line line Hnl), (all_spaces_c_string line Hsp).
    rewrite (blank_line_with_registry _ line Hsp); [reflexivity|].
    rewrite add_history_step_registry. exact Hne.
  - unfold fgets.
    destruct (String.append line (String newline rest)) eqn:E;
      [destruct line; discriminate|].
    rewrite <- E. f_equal. apply fgets_chars_line; [exact Hnl|].
    change (Z.to_nat (MAX_INPUT_SIZE - 1)) with 1023%nat. exact Hlen.
Qed.

End RunProofs.

Lemma shell_run_executes_line_witness :
  no_newline (String.append "ls" (String nul "-l")) = true /\
  (String.length (String.append "ls" (String nul "-l")) < 1023)%nat /\
  exists m' q,
    shell_run (px := linux) (os := counting_system) appending_history fresh
      (String.append (String.append "ls" (String nul "-l"))
         (String newline EmptyString)) =
      Run_returned SHELL_ERROR_INVALID_INPUT m' q /\
    history (base (ctx m')) = ["ls"] /\
    jobs (ctx m') = [mkJob 1000 (Some "ls") true] /\
    q = [Some "> "; Some "> "].
Proof.
  split; [reflexivity|]. split; [vm_compute; lia|].
  rewrite (shell_run_executes_line (px := linux) (os := counting_system)
             appending_history fresh (String.append "ls" (String nul "-l"))
             EmptyString eq_refl)
    by (vm_compute; lia).
  eexists _, _. split; [vm_compute; reflexivity|]. repeat split.
Defined.

Lemma shell_run_splits_long_line_witness :
  no_newline long_chunk = true /\
  String.length long_chunk = 1023%nat /\
  exists m' q,
    shell_run (px := linux) (os := counting_system) appending_history fresh
      (String.append long_chunk "b") =
      Run_returned SHELL_ERROR_INVALID_INPUT m' q /\
    history (base (ctx m')) = [long_chunk; "b"].
Proof.
  split; [vm_compute; reflexivity|]. split; [vm_compute; reflexivity|].
  rewrite (shell_run_splits_long_line (px := linux) (os := counting_system)
             appending_history fresh long_chunk "b")
    by (vm_compute; reflexivity).
  eexists _, _. split; [vm_compute; reflexivity|]. vm_compute. reflexivity.
Defined.

Lemma command_defined_without_registry_witness :
  custom_commands (ctx fresh) = [] /\
  Z.of_nat (length (tokenize "> out ls")) < MAX_INPUT_SIZE /\
  shell_execute_command (px := linux) (os := counting_system) fresh
    (Some "> out ls") <> Undefined.
Proof.
  split; [reflexivity|]. split; [reflexivity|].
  exact (command_defined_without_registry (px := linux)
           (os := counting_system) fresh "> out ls" eq_refl eq_refl).
Defined.

Lemma shell_run_defined_without_registry_witness :
  custom_commands (ctx fresh) = [] /\
  shell_run (px := linux) (os := counting_system) appending_history fresh
    (String newline (String.append "ls" (String newline EmptyString))) <>
    Run_undefined.
Proof.
  split; [reflexivity|].
  exact (shell_run_defined_without_registry (px := linux)
           (os := counting_system) appending_history fresh _ eq_refl).
Defined.

Lemma shell_run_blank_line_undefined_witness :
  all_spaces EmptyString = true /\
  (String.length EmptyString < 1023)%nat /\
  custom_commands (ctx hello_machine) <> [] /\
  shell_run (px := linux) (os := counting_system) appending_history
    hello_machine (String newline "hello") = Run_undefined.
Proof.
  assert (custom_commands (ctx hello_machine) <> []) as Hne by discriminate.
  split; [reflexivity|]. split; [vm_compute; lia|]. split; [exact Hne|].
  exact (shell_run_blank_line_undefined (px := linux) (os := counting_system)
           appending_history hello_machine EmptyString "hello" eq_refl
           ltac:(vm_compute; lia) Hne).
Defined.
